(** * MoviePilot plugins: LibraryScraper and SubscribeReminder

    A shallow embedding of the two plugins of this repository,
    [plugins/libraryscraper/__init__.py] and
    [plugins/subscribereminder/__init__.py], and the properties of their
    logic: the per-directory debounce, the exclusion check, the readiness
    polling loop, media identification, the error barrier around the scrape,
    and the construction of the daily digest.

    Conventions.
    - Python [str] values are [string]s; the text helpers below cover the
      ASCII range (other bytes are left untouched by [lower] and are never
      white space).
    - [pathlib.Path] is the POSIX flavour, kept in its parsed form: an anchor
      and the list of remaining components.
    - The host application (file system, recogniser, scraper, scheduler,
      subscription store) is not part of the repository: it enters as a
      record of oracles.
    - The type [exn] stands for instances of Python's [Exception]. *)

From Stdlib Require Import Ascii.
From stdpp Require Import base decidable option list strings gmap pretty.

#[local] Set Warnings "-clear-no-such-hyp".


(** ** Python built-ins used by the plugins *)

Module Py.

Inductive exn :=
  | OSError (msg : string)          (* IOError is an alias of OSError *)
  | ValueError (msg : string)
  | RuntimeError (msg : string).    (* any other subclass of Exception *)

Definition exn_str (e : exn) : string :=
  match e with OSError m | ValueError m | RuntimeError m => m end.

Definition is_IOError (e : exn) : bool :=
  match e with OSError _ => true | _ => false end.

Definition is_ValueError (e : exn) : bool :=
  match e with ValueError _ => true | _ => false end.

Inductive Result (A : Type) :=
  | Ok (a : A)
  | Raise (e : exn).
Arguments Ok {A} a.
Arguments Raise {A} e.

(** [str.isspace] on one character of the ASCII range. *)
Definition isspace (c : ascii) : bool :=
  let n := nat_of_ascii c in
  (Nat.leb 9 n && Nat.leb n 13) || (Nat.leb 28 n && Nat.leb n 32).

Definition lower_char (c : ascii) : ascii :=
  let n := nat_of_ascii c in
  if Nat.leb 65 n && Nat.leb n 90 then ascii_of_nat (n + 32) else c.

Fixpoint lower (s : string) : string :=
  match s with
  | EmptyString => EmptyString
  | String c s' => String (lower_char c) (lower s')
  end.

Fixpoint lstrip (s : string) : string :=
  match s with
  | EmptyString => EmptyString
  | String c s' => if isspace c then lstrip s' else s
  end.

Fixpoint rstrip (s : string) : string :=
  match s with
  | EmptyString => EmptyString
  | String c s' =>
      match rstrip s' with
      | EmptyString => if isspace c then EmptyString else String c EmptyString
      | r => String c r
      end
  end.

Definition strip (s : string) : string := lstrip (rstrip s).

(** [c in s] for a one-character [c]. *)
Fixpoint contains (c : ascii) (s : string) : bool :=
  match s with
  | EmptyString => false
  | String a s' => if Ascii.eqb a c then true else contains c s'
  end.

(** [s.split(c, 1)] when [c in s]: the text before and after the first [c]. *)
Fixpoint split_once (c : ascii) (s : string) : string * string :=
  match s with
  | EmptyString => (EmptyString, EmptyString)
  | String a s' =>
      if Ascii.eqb a c then (EmptyString, s')
      else let '(l, r) := split_once c s' in (String a l, r)
  end.

(** [s.split(c)]: always at least one field. *)
Fixpoint split (c : ascii) (s : string) : list string :=
  match s with
  | EmptyString => [EmptyString]
  | String a s' =>
      if Ascii.eqb a c then EmptyString :: split c s'
      else match split c s' with
           | f :: fs => String a f :: fs
           | [] => [String a EmptyString]
           end
  end.

Fixpoint join (sep : string) (l : list string) : string :=
  match l with
  | [] => EmptyString
  | [x] => x
  | x :: rest => x +:+ sep +:+ join sep rest
  end.

Fixpoint replicate_char (n : nat) (c : ascii) : string :=
  match n with
  | O => EmptyString
  | S n' => String c (replicate_char n' c)
  end.

(** [s.rjust(width, fill)] *)
Definition rjust (width : nat) (fill : ascii) (s : string) : string :=
  replicate_char (width - String.length s) fill +:+ s.

Definition isdigit_char (c : ascii) : bool :=
  let n := nat_of_ascii c in Nat.leb 48 n && Nat.leb n 57.

Fixpoint all_digits (s : string) : bool :=
  match s with
  | EmptyString => true
  | String c s' => isdigit_char c && all_digits s'
  end.

(** [s.isdigit()] *)
Definition isdigit (s : string) : bool :=
  match s with EmptyString => false | _ => all_digits s end.

(** [int(s)] for a string of decimal digits. *)
Fixpoint int_digits (acc : nat) (s : string) : nat :=
  match s with
  | EmptyString => acc
  | String c s' => int_digits (10 * acc + (nat_of_ascii c - 48)) s'
  end.

Definition int_of_str (s : string) : nat := int_digits 0 s.

(** [s.rfind(c)] *)
Fixpoint rfind (c : ascii) (s : string) : option nat :=
  match s with
  | EmptyString => None
  | String a s' =>
      match rfind c s' with
      | Some i => Some (S i)
      | None => if Ascii.eqb a c then Some 0 else None
      end
  end.

Fixpoint drop_str (n : nat) (s : string) : string :=
  match n, s with
  | O, _ => s
  | S n', String _ s' => drop_str n' s'
  | S _, EmptyString => EmptyString
  end.

Fixpoint take_str (n : nat) (s : string) : string :=
  match n, s with
  | S n', String a s' => String a (take_str n' s')
  | _, _ => EmptyString
  end.

(** [s.replace(a, b)] for one-character [a] and [b]. *)
Fixpoint replace_char (a b : ascii) (s : string) : string :=
  match s with
  | EmptyString => EmptyString
  | String c s' => String (if Ascii.eqb c a then b else c) (replace_char a b s')
  end.

(** [x in l] for a list of strings. *)
Definition str_in (x : string) (l : list string) : bool :=
  existsb (String.eqb x) l.

End Py.

(** ** [pathlib.Path], POSIX flavour *)

Module Pathlib.

(** A parsed path: the anchor (the empty string, ["/"] or ["//"]) and the
    components after it.  [Path.parts] is the anchor, when there is one,
    followed by [tail]. *)
Record Path := mkPath { anchor : string; tail : list string }.

Global Instance Path_eq_dec : EqDecision Path.
Proof. solve_decision. Defined.

Definition parse_root (s : string) : string * string :=
  match s with
  | String "/" (String "/" (String "/" _)) => ("/", s)
  | String "/" (String "/" rest) => ("//", rest)
  | String "/" rest => ("/", rest)
  | _ => ("", s)
  end.

Definition keep_component (x : string) : bool :=
  negb (String.eqb x "") && negb (String.eqb x ".").

(** [Path(s)] *)
Definition of_str (s : string) : Path :=
  let '(root, rel) := parse_root s in
  mkPath root (filter (fun x => keep_component x = true) (Py.split "/" rel)).

(** [str(p)] *)
Definition str (p : Path) : string :=
  match anchor p, tail p with
  | "", [] => "."
  | a, t => a +:+ Py.join "/" t
  end.

(** [p.name] *)
Definition name (p : Path) : string := List.last (tail p) "".

(** [p.parent]: a path without components is its own parent. *)
Definition parent (p : Path) : Path :=
  mkPath (anchor p) (removelast (tail p)).

(** [p.suffix]: the text from the last dot of the name, unless that dot
    opens or closes the name. *)
Definition suffix (p : Path) : string :=
  let n := name p in
  match Py.rfind "." n with
  | Some i =>
      if Nat.ltb 0 i && Nat.ltb i (String.length n - 1)
      then Py.drop_str i n else ""
  | None => ""
  end.

(** [p.stem] *)
Definition stem (p : Path) : string :=
  let n := name p in
  match Py.rfind "." n with
  | Some i =>
      if Nat.ltb 0 i && Nat.ltb i (String.length n - 1)
      then Py.take_str i n else n
  | None => n
  end.

Fixpoint is_prefix (xs ys : list string) : bool :=
  match xs, ys with
  | [], _ => true
  | x :: xs', y :: ys' => String.eqb x y && is_prefix xs' ys'
  | _ :: _, [] => false
  end.

(** [p.is_relative_to(other)]: [other] is [p] or one of its parents.  The
    comparison is lexical; since Python 3.9 it answers with a boolean and
    does not raise. *)
Definition is_relative_to (p other : Path) : bool :=
  String.eqb (anchor other) (anchor p) && is_prefix (tail other) (tail p).

End Pathlib.

Import Pathlib.

(** ** Effects and exceptions

    A call of the plugin yields the actions it performed, in order, and
    either a value or the exception that escaped it. *)

Module Eff.

Import Py.

(** The levels of the host's logger. *)
Inductive Level := DEBUG | INFO | WARN | ERROR.

Global Instance Level_eq_dec : EqDecision Level.
Proof. solve_decision. Defined.

Definition W (E A : Type) : Type := (list E * Result A)%type.

Global Instance W_ret {E} : MRet (W E) := fun A a => ([], Ok a).
Global Instance W_bind {E} : MBind (W E) := fun A B f m =>
  match m with
  | (t, Ok a) => let '(t', r) := f a in (t ++ t', r)
  | (t, Raise e) => (t, Raise e)
  end.

Definition emit {E} (e : E) : W E unit := ([e], Ok tt).
Definition raise {E A} (e : exn) : W E A := ([], Raise e).
Definition lift {E A} (r : Result A) : W E A := ([], r).

(** [try: body / except Exception as e: handler e] *)
Definition try_except {E A} (body : W E A) (handler : exn -> W E A) : W E A :=
  match body with
  | (t, Ok a) => (t, Ok a)
  | (t, Raise e) => let '(t', r) := handler e in (t ++ t', r)
  end.

End Eff.

(** ** The real-time library scraper, [plugins/libraryscraper/__init__.py] *)

Module LibraryScraper.

Import Py Eff.

Inductive MediaType := MOVIE | TV.

Global Instance MediaType_eq_dec : EqDecision MediaType.
Proof. solve_decision. Defined.

(** Host objects, kept to the fields the plugin touches. *)
Record MediaInfo := mkMediaInfo { mi_title : string; mi_type : MediaType }.

Record MetaInfo := mkMeta { meta_path : Path; meta_type : option MediaType }.

Record FileItem := mkFileItem {
  fi_storage : string;
  fi_type : string;
  fi_path : string;
  fi_name : string;
  fi_basename : string;
  fi_modify_time : nat
}.

Global Instance MediaInfo_eq_dec : EqDecision MediaInfo.
Proof. solve_decision. Defined.
Global Instance MetaInfo_eq_dec : EqDecision MetaInfo.
Proof. solve_decision. Defined.
Global Instance FileItem_eq_dec : EqDecision FileItem.
Proof. solve_decision. Defined.

(** What the plugin sees of its surroundings at one instant: the settings,
    the file system and the host's media chain.  File-system calls fail with
    [OSError] only; the host calls may raise anything. *)
Record World := mkWorld {
  RMT_MEDIAEXT : list string;
  fs_exists : Path -> bool;
  fs_is_dir : Path -> bool;
  fs_is_file : Path -> bool;
  fs_iterdir : Path -> string + list Path;
  fs_open_rb : Path -> option string;
  fs_stat_mtime : Path -> string + nat;
  MetaInfoPath_type : Path -> option MediaType;
  recognize_media : MetaInfo -> Result (option MediaInfo);
  obtain_images : MediaInfo -> Result unit;
  scrape_metadata : FileItem -> MediaInfo -> Result unit
}.

(** The plugin's configuration after [init_plugin]: [_monitor_paths] and
    [_exclude_paths]. *)
Record Config := mkConfig {
  _monitor_paths : list (Path * option MediaType);
  _exclude_paths : list Path
}.

(** Work handed to [background_task]: the two lambdas of the source. *)
Inductive Task :=
  | Discard (dir_str : string)      (* processed_paths.discard(dir_str) *)
  | Retry (directory : Path).       (* handle_media_directory(directory) *)

(** Observable actions, in the order they happen.  [EnterScrape] marks entry
    into [_scrape_directory], so that invocations can be counted; the other
    constructors are calls the source makes. *)
Inductive Effect :=
  | Log (lvl : Level) (msg : string)
  | IterDir (directory : Path)
  | OpenFile (file : Path)
  | Stat (directory : Path)
  | RecognizeMedia (meta : MetaInfo)
  | ObtainImages (mi : MediaInfo)
  | ScrapeMetadata (fi : FileItem) (mi : MediaInfo)
  | BackgroundTask (delay : nat) (task : Task)
  | EnterScrape (directory : Path).

Global Instance Task_eq_dec : EqDecision Task.
Proof. solve_decision. Defined.
Global Instance Effect_eq_dec : EqDecision Effect.
Proof. solve_decision. Defined.

Abbreviation W := (Eff.W Effect).

Definition log (lvl : Level) (msg : string) : W unit := emit (Log lvl msg).

Definition os_result {A} (r : string + A) : Result A :=
  match r with inl msg => Raise (OSError msg) | inr a => Ok a end.

Section Operations.

Variable cfg : Config.
Variable w : World.

Definition is_media (p : Path) : bool :=
  str_in (lower (suffix p)) (RMT_MEDIAEXT w).

Definition iterdir (directory : Path) : W (list Path) :=
  emit (IterDir directory);; lift (os_result (fs_iterdir w directory)).

Definition open_rb (file : Path) : W unit :=
  emit (OpenFile file);;
  lift (match fs_open_rb w file with Some msg => Raise (OSError msg) | None => Ok tt end).

Definition stat_mtime (directory : Path) : W nat :=
  emit (Stat directory);; lift (os_result (fs_stat_mtime w directory)).

(** [MetaInfoPath(path)] *)
Definition MetaInfoPath (p : Path) : MetaInfo := mkMeta p (MetaInfoPath_type w p).

Definition call_recognize_media (meta : MetaInfo) : W (option MediaInfo) :=
  emit (RecognizeMedia meta);; lift (recognize_media w meta).

Definition call_obtain_images (mi : MediaInfo) : W unit :=
  emit (ObtainImages mi);; lift (obtain_images w mi).

Definition call_scrape_metadata (fi : FileItem) (mi : MediaInfo) : W unit :=
  emit (ScrapeMetadata fi mi);; lift (scrape_metadata w fi mi).

(** [background_task(delay, task)]: the thread is started and the caller
    goes on; the scheduler below runs [task] once [delay] has passed. *)
Definition background_task (delay : nat) (task : Task) : W unit :=
  emit (BackgroundTask delay task).

(** [_parse_path_config], one line of the loop body. *)
Definition parse_type (type_str : string) : option MediaType :=
  if String.eqb type_str "movie" then Some MOVIE
  else if String.eqb type_str "tv" then Some TV
  else None.

Definition parse_path_line (paths : list (Path * option MediaType)) (line : string)
  : W (list (Path * option MediaType)) :=
  let line := strip line in
  if String.eqb line "" then mret paths
  else
    let '(path_part, mtype) :=
      if contains "#" line
      then let '(path_part, type_part) := split_once "#" line in
           (path_part, parse_type (lower (strip type_part)))
      else (line, None) in
    let path := of_str (strip path_part) in
    if fs_exists w path && fs_is_dir w path
    then mret (paths ++ [(path, mtype)])
    else log WARN ("无效监控路径: " +:+ path_part);; mret paths.

Fixpoint parse_path_lines (paths : list (Path * option MediaType)) (lines : list string)
  : W (list (Path * option MediaType)) :=
  match lines with
  | [] => mret paths
  | line :: rest => paths' ← parse_path_line paths line; parse_path_lines paths' rest
  end.

Definition _parse_path_config (config_str : string) : W (list (Path * option MediaType)) :=
  parse_path_lines [] (split "010" config_str).

Definition _parse_exclude_paths (config_str : string) : list Path :=
  (fun p => of_str (strip p)) <$>
    filter (fun p => strip p <> "") (split "010" config_str).

(** [_is_excluded] *)
Fixpoint is_excluded_loop (path : Path) (excls : list Path) : bool :=
  match excls with
  | [] => false
  | excl :: rest =>
      if is_relative_to path excl then true else is_excluded_loop path rest
  end.

Definition _is_excluded (path : Path) : bool :=
  is_excluded_loop path (_exclude_paths cfg).

(** [_check_files_ready] *)
Fixpoint probe_files (files : list Path) : W unit :=
  match files with
  | [] => mret tt
  | file :: rest =>
      (if fs_is_file w file && is_media file then open_rb file else mret tt);;
      probe_files rest
  end.

Definition _check_files_ready (directory : Path) : W bool :=
  try_except
    (files ← iterdir directory; probe_files files;; mret true)
    (fun e =>
       if is_IOError e then mret false
       else log ERROR ("文件检查异常: " +:+ exn_str e);; mret false).

(** [_identify_media]: the loop over the configured paths.  [None] means
    the loop ran to its end without returning. *)
Fixpoint identify_by_config (directory : Path) (entries : list (Path * option MediaType))
  : W (option (MediaType * option MediaInfo)) :=
  match entries with
  | [] => mret None
  | (base_path, mtype) :: rest =>
      r ← try_except
            (if is_relative_to directory base_path then
               match mtype with
               | Some t =>
                   let meta := mkMeta (meta_path (MetaInfoPath directory)) (Some t) in
                   media_info ← call_recognize_media meta;
                   mret (Some (t, media_info))
               | None => mret None
               end
             else mret None)
            (fun e => if is_ValueError e then mret None else raise e);
      match r with
      | Some found => mret (Some found)
      | None => identify_by_config directory rest
      end
  end.

(** The tail of [_identify_media]: sample one media file of the directory
    and ask the recogniser. *)
Definition auto_recognize (directory : Path) : W (option MediaType * option MediaInfo) :=
  files ← iterdir directory;
  match List.find is_media files with
  | None => mret (None, None)
  | Some sample_file =>
      let meta := MetaInfoPath sample_file in
      media_info ← call_recognize_media meta;
      mret (meta_type meta, media_info)
  end.

Definition _identify_media (directory : Path) : W (option MediaType * option MediaInfo) :=
  r ← identify_by_config directory (_monitor_paths cfg);
  match r with
  | Some (mtype, media_info) => mret (Some mtype, media_info)
  | None => auto_recognize directory
  end.

(** [_scrape_directory] *)
Definition file_item (directory : Path) (mtime : nat) : FileItem :=
  mkFileItem "local" "dir"
    (replace_char "\" "/" (str directory) +:+ "/")
    (name directory) (stem directory) mtime.

Definition _scrape_directory (directory : Path) : W unit :=
  emit (EnterScrape directory);;
  try_except
    ('(media_type, media_info) ← _identify_media directory;
     match media_info with
     | None => log WARN ("无法识别媒体信息: " +:+ str directory)
     | Some mi =>
         call_obtain_images mi;;
         mtime ← stat_mtime directory;
         call_scrape_metadata (file_item directory mtime) mi;;
         log INFO ("刮削完成: " +:+ str directory)
     end)
    (fun e => log ERROR ("刮削失败: " +:+ exn_str e)).

(** [handle_media_directory] *)
Definition handle_media_directory (directory : Path) : W unit :=
  if _is_excluded directory then
    log DEBUG ("已排除目录: " +:+ str directory)
  else
    ready ← _check_files_ready directory;
    if negb ready then
      log INFO ("文件未就绪，等待重试: " +:+ str directory);;
      background_task 2 (Retry directory)
    else
      _scrape_directory directory.

(** [LibraryEventHandler._process_directory]; [processed_paths] is the
    handler's set. *)
Definition _process_directory (directory : Path) (processed_paths : gset string)
  : gset string * W unit :=
  let dir_str := str directory in
  if decide (dir_str ∈ processed_paths) then (processed_paths, mret tt)
  else
    (processed_paths ∪ {[dir_str]},
     background_task 10 (Discard dir_str);;
     handle_media_directory directory).

(** [LibraryEventHandler._handle_event] *)
Definition _handle_event (path_str : string) (processed_paths : gset string)
  : gset string * W unit :=
  if String.eqb path_str "" then (processed_paths, mret tt)
  else
    let file_path := of_str path_str in
    if fs_is_dir w file_path || negb (is_media file_path)
    then (processed_paths, mret tt)
    else _process_directory (parent file_path) processed_paths.

End Operations.

(** *** The scheduler

    Time is counted in the units of [background_task]'s delay.  The watcher
    thread and the timer threads are run one after the other: an event is
    handled at the current instant, a [Tick] moves the clock by one unit and
    then runs, in the order they were started, the background tasks whose
    delay has passed.  An exception that escapes a call ends its thread and
    nothing else. *)

Record State := mkState {
  now : nat;
  processed_paths : gset string;
  timers : list (nat * Task);
  trace : list Effect
}.

(** What [start_file_monitor] leaves behind: a fresh handler. *)
Definition init_state : State := mkState 0 ∅ [] [].

Definition spawned (t : nat) (effects : list Effect) : list (nat * Task) :=
  omap (fun e => match e with
                 | BackgroundTask delay task => Some (t + delay, task)
                 | _ => None
                 end) effects.

Definition commit (st : State) (pp : gset string) (out : W unit) : State :=
  mkState (now st) pp
          (timers st ++ spawned (now st) out.1)
          (trace st ++ out.1).

Definition run_task (cfg : Config) (w : World) (st : State) (task : Task) : State :=
  match task with
  | Discard dir_str => commit st (processed_paths st ∖ {[dir_str]}) (mret tt)
  | Retry directory =>
      commit st (processed_paths st) (handle_media_directory cfg w directory)
  end.

Definition run_tasks (cfg : Config) (w : World) (st : State) (tasks : list Task) : State :=
  foldl (run_task cfg w) st tasks.

Definition is_due (t : nat) (x : nat * Task) : bool := Nat.leb x.1 t.

Definition tick (cfg : Config) (env : nat -> World) (st : State) : State :=
  let t := S (now st) in
  let due := List.filter (is_due t) (timers st) in
  let later := List.filter (fun x => negb (is_due t x)) (timers st) in
  run_tasks cfg (env t) (mkState t (processed_paths st) later (trace st)) (due.*2).

Inductive Input :=
  | Tick
  | Created (src_path : string)     (* on_created *)
  | Moved (dest_path : string).     (* on_moved *)

Global Instance Input_eq_dec : EqDecision Input.
Proof. solve_decision. Defined.

Definition step (cfg : Config) (env : nat -> World) (st : State) (i : Input) : State :=
  match i with
  | Tick => tick cfg env st
  | Created path_str | Moved path_str =>
      let '(pp, out) := _handle_event cfg (env (now st)) path_str (processed_paths st) in
      commit st pp out
  end.

Definition run (cfg : Config) (env : nat -> World) (inputs : list Input) (st : State) : State :=
  foldl (step cfg env) st inputs.

Definition ticks (cfg : Config) (env : nat -> World) (n : nat) (st : State) : State :=
  run cfg env (replicate n Tick) st.

(** A state the plugin can be in: some inputs after the monitor started. *)
Definition reachable (cfg : Config) (env : nat -> World) (st : State) : Prop :=
  exists inputs, st = run cfg env inputs init_state.

(** The answer of the readiness probe. *)
Definition files_ready (w : World) (directory : Path) : bool :=
  match (_check_files_ready w directory).2 with
  | Ok ready => ready
  | Raise _ => false
  end.

(** Counting in a trace and in the timer queue: entries into
    [_scrape_directory d], probes of [d], and the instants at which the
    pending retries of [d] and the pending evictions of [s] fall due. *)
Definition scrapes_of (d : Path) (t : list Effect) : nat :=
  length (List.filter (fun e => bool_decide (e = EnterScrape d)) t).

Definition probes_of (d : Path) (t : list Effect) : nat :=
  length (List.filter (fun e => bool_decide (e = IterDir d)) t).

Definition retry_dues (d : Path) (q : list (nat * Task)) : list nat :=
  omap (fun x => if bool_decide (x.2 = Retry d) then Some x.1 else None) q.

Definition discard_dues (s : string) (q : list (nat * Task)) : list nat :=
  omap (fun x => if bool_decide (x.2 = Discard s) then Some x.1 else None) q.

Definition retries_of (d : Path) (q : list (nat * Task)) : nat :=
  length (retry_dues d q).

(** Effects that neither enter a scrape nor start a background task. *)
Definition passive (e : Effect) : Prop :=
  match e with
  | EnterScrape _ | BackgroundTask _ _ => False
  | _ => True
  end.

(** Effects that leave [d] alone: no scrape of it, no probe of it, no retry
    for it. *)
Definition quiet (d : Path) (e : Effect) : Prop :=
  match e with
  | EnterScrape d' | IterDir d' | BackgroundTask _ (Retry d') => d' <> d
  | _ => True
  end.

(** What a background task does when it runs: its effects, and what it
    leaves of the handler's set. *)
Definition task_out (cfg : Config) (w : World) (task : Task) : list Effect :=
  match task with
  | Discard _ => []
  | Retry directory => (handle_media_directory cfg w directory).1
  end.

Definition task_pp (pp : gset string) (task : Task) : gset string :=
  match task with
  | Discard dir_str => pp ∖ {[dir_str]}
  | Retry _ => pp
  end.

(** How many of the tasks are a retry of [d]. *)
Definition retry_count (d : Path) (tasks : list Task) : nat :=
  length (List.filter (fun task => bool_decide (task = Retry d)) tasks).

(** The configured entries that [directory] is nested under and that carry
    a type hint, in the order of the configuration. *)
Fixpoint hinted_matches (directory : Path) (entries : list (Path * option MediaType))
  : list (Path * MediaType) :=
  match entries with
  | [] => []
  | (base_path, Some t) :: rest =>
      if is_relative_to directory base_path
      then (base_path, t) :: hinted_matches directory rest
      else hinted_matches directory rest
  | (_, None) :: rest => hinted_matches directory rest
  end.

(** The first configured entry that [directory] is nested under. *)
Definition first_match (directory : Path) (entries : list (Path * option MediaType))
  : option (Path * option MediaType) :=
  List.find (fun entry => is_relative_to directory entry.1) entries.

(** The question put to the recogniser for [directory] with the hint [t]. *)
Definition hinted_meta (directory : Path) (t : MediaType) : MetaInfo :=
  mkMeta directory (Some t).

(** [_identify_media] sampled the directory: it listed its files. *)
Definition sampled (cfg : Config) (w : World) (directory : Path) : Prop :=
  IterDir directory ∈ (_identify_media cfg w directory).1.

Definition not_listing (e : Effect) : Prop :=
  match e with IterDir _ => False | _ => True end.

(** The identification of a ready directory, as it is claimed: the hint of
    the first entry the directory is nested under is put to the recogniser
    when that entry has one; the directory is sampled only when no hinted
    entry applies; absent media info ends the scrape with a log line and
    nothing else. *)
Definition identification_as_claimed (cfg : Config) (w : World) (D : Path) : Prop :=
  (forall base t,
     first_match D (_monitor_paths cfg) = Some (base, Some t) ->
     exists rest, (_identify_media cfg w D).1 = RecognizeMedia (hinted_meta D t) :: rest)
  /\ (sampled cfg w D -> hinted_matches D (_monitor_paths cfg) = [])
  /\ (forall t ty,
        _identify_media cfg w D = (t, Ok (ty, None)) ->
        _scrape_directory cfg w D =
          (EnterScrape D :: t ++ [Log WARN ("无法识别媒体信息: " +:+ str D)], Ok tt)).

(** The scrape budget of [d]: retries of it that are pending, plus the
    scrapes of it already entered. *)
Definition budget (d : Path) (st : State) : nat :=
  retries_of d (timers st) + scrapes_of d (trace st).

(** [d] is in the handler's set, and the one eviction queued for it falls
    due at [t], which is still ahead. *)
Definition pending_until (d : Path) (t : nat) (st : State) : Prop :=
  str d ∈ processed_paths st
  /\ discard_dues (str d) (timers st) = [t]
  /\ now st < t.

(** A file event the handler lets through at [w]: a media file, not a
    directory, whose parent is [d]. *)
Definition media_event (w : World) (d : Path) (i : Input) : Prop :=
  match i with
  | Tick => False
  | Created path_str | Moved path_str =>
      path_str <> ""
      /\ fs_is_dir w (of_str path_str) = false
      /\ is_media w (of_str path_str) = true
      /\ parent (of_str path_str) = d
  end.

(** How many of the tasks are an eviction of [s]. *)
Definition discard_count (s : string) (tasks : list Task) : nat :=
  length (List.filter (fun task => bool_decide (task = Discard s)) tasks).

(** In every state the plugin reaches, a string has at most one eviction
    queued, and none when it is not in the set. *)
Definition evictions_consistent (st : State) : Prop :=
  forall s,
    length (discard_dues s (timers st)) <= 1
    /\ (s ∉ processed_paths st -> discard_dues s (timers st) = []).

Definition count_ticks (inputs : list Input) : nat :=
  length (List.filter (fun i => match i with Tick => true | _ => false end) inputs).

(** An input of a burst on [d]: a tick, or an event on a file whose parent
    directory is [d]. *)
Definition on_directory (d : Path) (i : Input) : Prop :=
  match i with
  | Tick => True
  | Created path_str | Moved path_str => parent (of_str path_str) = d
  end.

End LibraryScraper.

(** ** The daily subscription digest, [plugins/subscribereminder/__init__.py] *)

Module SubscribeReminder.

Import Py Eff.

(** A configuration value as [config.get] returns it. *)
Inductive PyVal := PyNone | PyInt (n : Z) | PyStr (s : string).

Definition truthy (v : PyVal) : bool :=
  match v with
  | PyNone => false
  | PyInt n => negb (Z.eqb n 0)
  | PyStr s => negb (String.eqb s "")
  end.

(** [str(v)] *)
Definition py_str (v : PyVal) : string :=
  match v with
  | PyNone => "None"
  | PyInt n => pretty n
  | PyStr s => s
  end.

(** [int(v)], for a value whose [str] is made of digits. *)
Definition py_int (v : PyVal) : nat :=
  match v with
  | PyNone => 0
  | PyInt n => Z.to_nat n
  | PyStr s => int_of_str s
  end.

(** A row of the subscription store.  An absent id or season is [None];
    [name] and [year] are given as they print. *)
Record Subscribe := mkSubscribe {
  sub_type : string;
  sub_tmdbid : option nat;
  sub_season : option nat;
  sub_name : string;
  sub_year : string
}.

Record TmdbEpisode := mkEpisode {
  air_date : option string;
  episode_number : nat
}.

Record MovieInfo := mkMovieInfo { release_date : string }.

(** Python truthiness of an optional integer and of an optional string. *)
Definition nonzero (x : option nat) : bool :=
  match x with Some (S _) => true | _ => false end.

Definition nonempty (x : option string) : bool :=
  match x with Some s => negb (String.eqb s "") | None => false end.

(** The host at one run: the store, the clock, the metadata lookups and the
    cron parser. *)
Record Host := mkHost {
  subscribe_list : list Subscribe;
  current_date : string;
  tmdb_episodes : nat -> nat -> list (option TmdbEpisode);
  recognize_movie : nat -> option MovieInfo;
  from_crontab : string -> Result unit
}.

Inductive Job :=
  | CronJob (cron : string)
  | DateJob.

Inductive Action :=
  | LogLine (lvl : Level) (msg : string)
  | SystemMessagePut (msg : string)
  | AddJob (job : Job)
  | UpdateConfig (enabled onlyonce : bool) (time : PyVal)
  | PrintJobs
  | SchedulerStart
  | SchedulerShutdown
  | TmdbEpisodes (tmdbid season : nat)
  | RecognizeMovie (tmdbid : nat)
  | PostMessage (title text image_path : string).

Abbreviation W := (Eff.W Action).

Definition logger (lvl : Level) (msg : string) : W unit := emit (LogLine lvl msg).

(** *** [init_plugin] *)

Record Scheduler := mkScheduler { jobs : list Job; running : bool }.

Record Plugin := mkPlugin {
  _enabled : bool;
  _onlyonce : bool;
  _time : PyVal;
  _scheduler : option Scheduler
}.

Record ConfigDict := mkConfigDict {
  cfg_enabled : bool;
  cfg_onlyonce : bool;
  cfg_time : PyVal
}.

(** [stop_service] *)
Definition stop_service (self : Plugin) : W Plugin :=
  match _scheduler self with
  | Some sched =>
      (if running sched then emit SchedulerShutdown else mret tt);;
      mret (mkPlugin (_enabled self) (_onlyonce self) (_time self) None)
  | None => mret self
  end.

Definition cron_of (time : PyVal) : string :=
  "0 " +:+ pretty (py_int time) +:+ " * * *".

(** [init_plugin]; the value is the plugin as the call leaves it.  [js] is
    the job list of the new scheduler. *)
Definition init_plugin (h : Host) (self : Plugin) (config : option ConfigDict)
  : W Plugin :=
  self ← stop_service self;
  match config with
  | None => mret self
  | Some c =>
      let enabled := cfg_enabled c in
      let onlyonce := cfg_onlyonce c in
      let time := cfg_time c in
      if enabled || onlyonce then
        let js := [] in
        js ← (if truthy time && isdigit (py_str time) then
                let cron := cron_of time in
                try_except
                  (lift (from_crontab h cron);;
                   emit (AddJob (CronJob cron));;
                   mret (js ++ [CronJob cron]))
                  (fun err =>
                     logger ERROR ("定时任务配置错误：" +:+ exn_str err);;
                     emit (SystemMessagePut ("执行周期配置错误：" +:+ exn_str err));;
                     mret js)
              else mret js);
        '(js, onlyonce) ←
          (if onlyonce then
             logger INFO "订阅提醒服务启动，立即运行一次";;
             emit (AddJob DateJob);;
             emit (UpdateConfig enabled false time);;
             mret (js ++ [DateJob], false)
           else mret (js, onlyonce));
        match js with
        | [] => mret (mkPlugin enabled onlyonce time (Some (mkScheduler js false)))
        | _ =>
            emit PrintJobs;;
            emit SchedulerStart;;
            mret (mkPlugin enabled onlyonce time (Some (mkScheduler js true)))
        end
      else mret (mkPlugin enabled onlyonce time (_scheduler self))
  end.

(** *** [__send_notify] *)

(** The dictionaries appended to [current_tv_subscribe] and
    [current_movie_subscribe]; their keys are fixed, so they are records. *)
Record TvEntry := mkTvEntry { tv_name : string; tv_season : string; tv_episode : string }.
Record MovieEntry := mkMovieEntry { movie_name : string }.

(** [str(n).rjust(2, '0')] *)
Definition two_digits (n : nat) : string := rjust 2 "0" (pretty n).

(** Lines 125-127: the numbers of the episodes aired on [date]. *)
Fixpoint aired_on (date : string) (episodes_info : list (option TmdbEpisode)) : list nat :=
  match episodes_info with
  | [] => []
  | episode :: rest =>
      match episode with
      | Some ep =>
          if nonempty (air_date ep) && String.eqb (default "" (air_date ep)) date
          then episode_number ep :: aired_on date rest
          else aired_on date rest
      | None => aired_on date rest
      end
  end.

(** Lines 133-134: the ['episode'] field, for a non-empty list. *)
Definition episode_field (episodes : list nat) : string :=
  let first := List.hd 0 episodes in
  let last := List.last episodes 0 in
  if Nat.ltb 1 (length episodes)
  then "E" +:+ two_digits first +:+ "-E" +:+ two_digits last
  else "E" +:+ two_digits first.

Definition display_name (subscribe : Subscribe) : string :=
  sub_name subscribe +:+ " (" +:+ sub_year subscribe +:+ ")".

(** Lines 112-147: the body of the loop over the subscriptions. *)
Definition visit (h : Host) (date : string) (acc : list TvEntry * list MovieEntry)
    (subscribe : Subscribe) : W (list TvEntry * list MovieEntry) :=
  let '(current_tv_subscribe, current_movie_subscribe) := acc in
  if String.eqb (sub_type subscribe) "电视剧" then
    if negb (nonzero (sub_tmdbid subscribe)) || negb (nonzero (sub_season subscribe))
    then mret acc
    else
      let tmdbid := default 0 (sub_tmdbid subscribe) in
      let season := default 0 (sub_season subscribe) in
      emit (TmdbEpisodes tmdbid season);;
      let episodes_info := tmdb_episodes h tmdbid season in
      match episodes_info with
      | [] => mret acc
      | _ =>
          let episodes := aired_on date episodes_info in
          match episodes with
          | [] => mret acc
          | _ =>
              mret (current_tv_subscribe ++
                      [mkTvEntry (display_name subscribe)
                                 ("S" +:+ two_digits season)
                                 (episode_field episodes)],
                    current_movie_subscribe)
          end
      end
  else
    if negb (nonzero (sub_tmdbid subscribe)) then mret acc
    else
      let tmdbid := default 0 (sub_tmdbid subscribe) in
      emit (RecognizeMovie tmdbid);;
      match recognize_movie h tmdbid with
      | None => mret acc
      | Some mediainfo =>
          if String.eqb (release_date mediainfo) date
          then mret (current_tv_subscribe,
                     current_movie_subscribe ++ [mkMovieEntry (display_name subscribe)])
          else mret acc
      end.

Fixpoint collect (h : Host) (date : string) (acc : list TvEntry * list MovieEntry)
    (subscribes : list Subscribe) : W (list TvEntry * list MovieEntry) :=
  match subscribes with
  | [] => mret acc
  | subscribe :: rest => acc' ← visit h date acc subscribe; collect h date acc' rest
  end.

(** [__send_notify] with the body its [def] has in the file, lines 100-147:
    the two lists are built and the method ends. *)
Definition __send_notify (h : Host) : W unit :=
  match subscribe_list h with
  | [] => logger ERROR "当前没有订阅，跳过处理"
  | subscribes =>
      let date := current_date h in
      collect h date ([], []) subscribes;;
      mret tt
  end.

(** Lines 149-171: the statements that build the text and send it.  In the
    file they follow the method at columns that belong to no block of it
    (see [SourceLayout] below); they are given here as a function of the
    three names they read. *)
Definition tv_block (sub : TvEntry) : string :=
  "📺 " +:+ tv_name sub +:+ "
" +:+ "   " +:+ tv_season sub +:+ "季 " +:+ tv_episode sub +:+ "集
" +:+ "
".

Definition movie_block (sub : MovieEntry) : string :=
  "🎬 " +:+ movie_name sub +:+ "
" +:+ "
".

Definition digest_text (current_tv_subscribe : list TvEntry)
    (current_movie_subscribe : list MovieEntry) : string :=
  let text := "" in
  let text := foldl (fun text sub => text +:+ tv_block sub) text current_tv_subscribe in
  let text := foldl (fun text sub => text +:+ movie_block sub) text current_movie_subscribe in
  text.

Definition digest_block (current_tv_subscribe : list TvEntry)
    (current_movie_subscribe : list MovieEntry) (date : string) : W unit :=
  let notification_image_path := "https://115.com/web_icon.jpg" in
  let text := digest_text current_tv_subscribe current_movie_subscribe in
  if negb (String.eqb text "")
  then emit (PostMessage (date +:+ "订阅提醒") text notification_image_path)
  else mret tt.

(** The method as the names used by lines 149-171 suggest it was meant:
    the block read as the tail of [__send_notify]. *)
Definition send_notify_intended (h : Host) : W unit :=
  match subscribe_list h with
  | [] => logger ERROR "当前没有订阅，跳过处理"
  | subscribes =>
      let date := current_date h in
      '(current_tv_subscribe, current_movie_subscribe) ←
        collect h date ([], []) subscribes;
      digest_block current_tv_subscribe current_movie_subscribe date
  end.

Definition posts (t : list Action) : list Action :=
  List.filter (fun e => match e with PostMessage _ _ _ => true | _ => false end) t.

(** The two metadata lookups. *)
Definition is_lookup (e : Action) : Prop :=
  match e with
  | TmdbEpisodes _ _ | RecognizeMovie _ => True
  | _ => False
  end.

End SubscribeReminder.

(** ** The layout of [__send_notify] in the file

    Python groups statements by the column their line starts at.  The
    tokenizer keeps a stack of open columns: a deeper line opens a block, a
    shallower one must return to a column that is on the stack. *)

Module SourceLayout.

Fixpoint dedent (col : nat) (stack : list nat) : option (list nat) :=
  match stack with
  | [] => None
  | top :: rest =>
      if Nat.eqb col top then Some stack
      else if Nat.ltb top col then None
      else dedent col rest
  end.

Definition indent (stack : list nat) (col : nat) : option (list nat) :=
  match stack with
  | [] => None
  | top :: _ => if Nat.ltb top col then Some (col :: stack) else dedent col stack
  end.

(** The first line whose column fits no open block, if any. *)
Fixpoint first_bad_line (stack : list nat) (lines : list (nat * nat)) : option nat :=
  match lines with
  | [] => None
  | (line_no, col) :: rest =>
      match indent stack col with
      | Some stack' => first_bad_line stack' rest
      | None => Some line_no
      end
  end.

(** Line number and starting column of each statement of
    [subscribereminder/__init__.py] from line 99, [def __send_notify], to
    line 150; blank lines, comment lines and the continuation lines of a
    bracketed expression do not count. *)
Definition send_notify_lines : list (nat * nat) :=
  [(99, 4); (101, 8); (102, 8); (103, 12); (104, 12); (107, 8); (109, 8);
   (110, 8); (112, 8); (114, 12); (115, 16); (116, 20); (119, 16); (120, 16);
   (121, 20); (123, 16); (125, 16); (126, 20); (127, 24); (129, 16);
   (130, 20); (138, 12); (139, 16); (140, 20); (141, 16); (142, 16);
   (143, 20); (144, 16); (145, 20); (150, 17)].

(** The columns open when line 99 is read: the module and the class body. *)
Definition class_body : list nat := [4; 0].

End SourceLayout.

Module LibraryScraperExamples.

Import Py LibraryScraper.

Definition heat : MediaInfo := mkMediaInfo "Heat" MOVIE.

(** A small library: [/media/movies/Heat] holds [Heat.mkv], which cannot be
    opened before instant 5 (still being copied). *)
Definition world_at (t : nat) : World := {|
  RMT_MEDIAEXT := [".mkv"; ".mp4"];
  fs_exists := fun p => bool_decide (p ∈ [of_str "/media/movies"; of_str "/media/tv"]);
  fs_is_dir := fun p => negb (is_prefix [".mkv"] [suffix p]);
  fs_is_file := fun p => is_prefix [".mkv"] [suffix p];
  fs_iterdir := fun d =>
    if bool_decide (d = of_str "/media/movies/Heat")
    then inr [of_str "/media/movies/Heat/poster.jpg"; of_str "/media/movies/Heat/Heat.mkv"]
    else inr [];
  fs_open_rb := fun f => if Nat.ltb t 5 then Some "Permission denied" else None;
  fs_stat_mtime := fun _ => inr 1700;
  MetaInfoPath_type := fun _ => None;
  recognize_media := fun meta => Ok (Some heat);
  obtain_images := fun _ => Ok tt;
  scrape_metadata := fun _ _ => Ok tt
|}.

Definition config : Config := {|
  _monitor_paths := [(of_str "/media/movies", Some MOVIE); (of_str "/media/tv", None)];
  _exclude_paths := [of_str "/media/temp"]
|}.

(** The same library with a recogniser that rejects a hinted question with
    [ValueError] and answers an unhinted one. *)
Definition picky_world : World := {|
  RMT_MEDIAEXT := RMT_MEDIAEXT (world_at 9);
  fs_exists := fs_exists (world_at 9);
  fs_is_dir := fs_is_dir (world_at 9);
  fs_is_file := fs_is_file (world_at 9);
  fs_iterdir := fs_iterdir (world_at 9);
  fs_open_rb := fs_open_rb (world_at 9);
  fs_stat_mtime := fs_stat_mtime (world_at 9);
  MetaInfoPath_type := MetaInfoPath_type (world_at 9);
  recognize_media := fun meta =>
    match meta_type meta with
    | Some _ => Raise (ValueError "unsupported type")
    | None => Ok (Some heat)
    end;
  obtain_images := obtain_images (world_at 9);
  scrape_metadata := scrape_metadata (world_at 9)
|}.

Definition heat_dir : Path := of_str "/media/movies/Heat".

Definition heat_file : string := "/media/movies/Heat/Heat.mkv".

(** The library after [/media/movies/Heat] was deleted. *)
Definition deleted_world : World := {|
  RMT_MEDIAEXT := RMT_MEDIAEXT (world_at 9);
  fs_exists := fs_exists (world_at 9);
  fs_is_dir := fs_is_dir (world_at 9);
  fs_is_file := fs_is_file (world_at 9);
  fs_iterdir := fun _ => inl "No such file or directory";
  fs_open_rb := fs_open_rb (world_at 9);
  fs_stat_mtime := fs_stat_mtime (world_at 9);
  MetaInfoPath_type := MetaInfoPath_type (world_at 9);
  recognize_media := recognize_media (world_at 9);
  obtain_images := obtain_images (world_at 9);
  scrape_metadata := scrape_metadata (world_at 9)
|}.


End LibraryScraperExamples.

Module SubscribeReminderExamples.

Import Py SubscribeReminder.

Definition image : string := "https://115.com/web_icon.jpg".

(** One show, season 2, with episodes 3, 4 and 5 airing on 2025-01-17. *)
Definition severance : Subscribe := mkSubscribe "电视剧" (Some 953) (Some 2) "Severance" "2022".

Definition run_of_three : list (option TmdbEpisode) :=
  [Some (mkEpisode (Some "2025-01-10") 2);
   Some (mkEpisode (Some "2025-01-17") 3);
   Some (mkEpisode (Some "2025-01-17") 4);
   Some (mkEpisode (Some "2025-01-17") 5);
   Some (mkEpisode None 6)].

Definition tv_host (episodes_info : list (option TmdbEpisode)) : Host := {|
  subscribe_list := [severance];
  current_date := "2025-01-17";
  tmdb_episodes := fun _ _ => episodes_info;
  recognize_movie := fun _ => None;
  from_crontab := fun _ => Ok tt
|}.

(** One film released on 2025-01-17, and a cron parser that accepts the
    hours 0 to 23. *)
Definition heat_1995 : Subscribe := mkSubscribe "电影" (Some 949) None "Heat" "1995".

Definition movie_host : Host := {|
  subscribe_list := [heat_1995];
  current_date := "2025-01-17";
  tmdb_episodes := fun _ _ => [];
  recognize_movie := fun _ => Some (mkMovieInfo "2025-01-17");
  from_crontab := fun cron =>
    if bool_decide (cron ∈ (fun hour => cron_of (PyInt (Z.of_nat hour))) <$> seq 0 24)
    then Ok tt
    else Raise (ValueError "Error validating expression: the last value is out of range")
|}.


Definition gap : list (option TmdbEpisode) :=
  [Some (mkEpisode (Some "2025-01-17") 3);
   Some (mkEpisode (Some "2025-01-24") 4);
   Some (mkEpisode (Some "2025-01-17") 5)].

End SubscribeReminderExamples.

(** ** Further notions about the library scraper *)

Module ScraperNotions.

Import Py Eff LibraryScraper.

(** A file event that [_handle_event] drops at [w]: no path, a directory,
    or a file whose suffix is not a media suffix. *)
Definition dropped_event (w : World) (i : Input) : Prop :=
  match i with
  | Tick => False
  | Created path_str | Moved path_str =>
      path_str = ""
      \/ fs_is_dir w (of_str path_str) = true
      \/ is_media w (of_str path_str) = false
  end.

(** The delay a background task is started with. *)
Definition delay_of (task : Task) : nat :=
  match task with
  | Discard _ => 10
  | Retry _ => 2
  end.

(** Every queued task falls due after now and within its delay. *)
Definition timers_in_range (st : State) : Prop :=
  Forall (fun x => now st < x.1 /\ x.1 <= now st + delay_of x.2) (timers st).




(** The handler's set and the queue agree: a string in the set has exactly
    one eviction queued, a string outside it has none. *)
Definition evictions_match (st : State) : Prop :=
  forall s,
    length (discard_dues s (timers st)) =
    if decide (s ∈ processed_paths st) then 1 else 0.

(** The files of a listing that the readiness probe opens. *)
Definition probed (w : World) (files : list Path) : list Path :=
  List.filter (fun f => fs_is_file w f && is_media w f) files.

End ScraperNotions.

(** ** The life cycle of the library scraper: [init_plugin],
    [start_file_monitor] and [stop_service] *)

Module ScraperLifecycle.

Import Py Eff LibraryScraper.

(** The watchdog observer as the plugin drives it; each call may raise. *)
Record ObserverApi := mkObserverApi {
  observer_stop : Result unit;
  observer_join : Result unit;
  observer_schedule : string -> Result unit;
  observer_start : Result unit
}.

(** The observer object: the paths scheduled on it and whether it runs. *)
Record Observer := mkObserver { watches : list string; started : bool }.

(** The plugin object: [_enabled], the two parsed path lists, [_observer]. *)
Record Scraper := mkScraper {
  scraper_enabled : bool;
  scraper_paths : Config;
  _observer : option Observer
}.

(** The configuration dictionary; an absent key is [None], and the
    dictionary is falsy when it has no key. *)
Record ScraperConfig := mkScraperConfig {
  get_enabled : option bool;
  get_monitor_paths : option string;
  get_exclude_paths : option string
}.

Definition has_keys (c : ScraperConfig) : bool :=
  bool_decide (is_Some (get_enabled c))
  || bool_decide (is_Some (get_monitor_paths c))
  || bool_decide (is_Some (get_exclude_paths c)).

Inductive Step :=
  | Core (e : Effect)                                  (* an effect of the operations above *)
  | ObserverStop
  | ObserverJoin
  | ObserverSchedule (path : string) (recursive : bool)
  | ObserverStart.

Global Instance Step_eq_dec : EqDecision Step.
Proof. solve_decision. Defined.

(** State, effects and exceptions: the plugin object survives an exception
    as the call left it. *)
Definition SW (A : Type) : Type := Scraper -> Scraper * Eff.W Step A.

Global Instance SW_ret : MRet SW := fun A a self => (self, ([], Ok a)).
Global Instance SW_bind : MBind SW := fun A B f m self =>
  match m self with
  | (self1, (t1, Ok a)) =>
      let '(self2, (t2, r)) := f a self1 in (self2, (t1 ++ t2, r))
  | (self1, (t1, Raise e)) => (self1, (t1, Raise e))
  end.

Definition do (step : Step) (r : Result unit) : SW unit :=
  fun self => (self, ([step], r)).

Definition info (msg : string) : SW unit := do (Core (Log INFO msg)) (Ok tt).

Definition set_observer (o : option Observer) : SW unit :=
  fun self => (mkScraper (scraper_enabled self) (scraper_paths self) o, ([], Ok tt)).

Definition update_observer (f : Observer -> Observer) : SW unit :=
  fun self =>
    (mkScraper (scraper_enabled self) (scraper_paths self) (f <$> _observer self),
     ([], Ok tt)).

(** [try: body / except Exception as e: handler e] *)
Definition sw_try_except {A} (body : SW A) (handler : exn -> SW A) : SW A :=
  fun self =>
    match body self with
    | (self1, (t1, Ok a)) => (self1, (t1, Ok a))
    | (self1, (t1, Raise e)) =>
        let '(self2, (t2, r)) := handler e self1 in (self2, (t1 ++ t2, r))
    end.

Definition skip : SW unit := mret tt.

(** [if self._observer: body] *)
Definition if_observer (body : SW unit) : SW unit :=
  fun self =>
    match _observer self with
    | Some _ => body self
    | None => skip self
    end.

(** An operation of the plugin, its effects kept under [Core]. *)
Definition core {A} (m : LibraryScraper.W A) : SW A :=
  fun self => (self, (Core <$> m.1, m.2)).

Section Lifecycle.

Variable api : ObserverApi.
Variable w : World.

Definition stop_and_join : SW unit :=
  do ObserverStop (observer_stop api);;
  do ObserverJoin (observer_join api).

(** [stop_service] *)
Definition stop_service : SW unit :=
  if_observer (stop_and_join;; set_observer None);;
  info "监控服务已停止".

(** The loop of [start_file_monitor] over [_monitor_paths]. *)
Fixpoint schedule_paths (paths : list (Path * option MediaType)) : SW unit :=
  match paths with
  | [] => skip
  | (path, _) :: rest =>
      info ("开始监控: " +:+ str path);;
      do (ObserverSchedule (str path) true) (observer_schedule api (str path));;
      update_observer (fun o => mkObserver (watches o ++ [str path]) (started o));;
      schedule_paths rest
  end.

(** [start_file_monitor] *)
Definition start_file_monitor : SW unit :=
  if_observer stop_and_join;;
  sw_try_except
    (set_observer (Some (mkObserver [] false));;
     (fun self => schedule_paths (_monitor_paths (scraper_paths self)) self);;
     do ObserverStart (observer_start api);;
     update_observer (fun o => mkObserver (watches o) true);;
     info "文件监控服务已启动")
    (fun e => do (Core (Log ERROR ("监控启动失败: " +:+ exn_str e))) (Ok tt)).

(** [init_plugin] *)
Definition init_plugin (config : option ScraperConfig) : SW unit :=
  stop_service;;
  match config with
  | None => skip
  | Some c =>
      if has_keys c then
        let enabled := default false (get_enabled c) in
        paths ← core (_parse_path_config w (default "" (get_monitor_paths c)));
        (fun self =>
           (mkScraper enabled
              (mkConfig paths (_parse_exclude_paths (default "" (get_exclude_paths c))))
              (_observer self),
            ([], Ok tt)));;
        if enabled then start_file_monitor else skip
      else skip
  end.

End Lifecycle.

(** The observer calls in a trace, in order. *)
Definition observer_calls (t : list Step) : list Step :=
  List.filter (fun s => match s with Core _ => false | _ => true end) t.

(** What [stop_service] emits for a plugin whose observer stops and joins. *)
Definition stop_trace (self : Scraper) : list Step :=
  match _observer self with
  | Some _ => [ObserverStop; ObserverJoin; Core (Log INFO "监控服务已停止")]
  | None => [Core (Log INFO "监控服务已停止")]
  end.

(** What the loop of [start_file_monitor] emits when every path is taken. *)
Definition schedule_trace (paths : list (Path * option MediaType)) : list Step :=
  paths ≫= fun entry =>
    [Core (Log INFO ("开始监控: " +:+ str entry.1)); ObserverSchedule (str entry.1) true].

Definition without_observer (self : Scraper) : Scraper :=
  mkScraper (scraper_enabled self) (scraper_paths self) None.

(** The observer can be stopped, when there is one. *)
Definition stoppable (api : ObserverApi) (self : Scraper) : Prop :=
  _observer self = None \/ (observer_stop api = Ok tt /\ observer_join api = Ok tt).

End ScraperLifecycle.

Module ScraperLifecycleExamples.

Import Py LibraryScraper ScraperLifecycle LibraryScraperExamples.

(** An observer that cannot watch [/media/tv] (say, too many watches). *)
Definition crowded : ObserverApi := {|
  observer_stop := Ok tt;
  observer_join := Ok tt;
  observer_schedule := fun path =>
    if String.eqb path "/media/tv" then Raise (OSError "inotify watch limit reached")
    else Ok tt;
  observer_start := Ok tt
|}.

Definition obliging : ObserverApi := mkObserverApi (Ok tt) (Ok tt) (fun _ => Ok tt) (Ok tt).

(** An observer whose thread cannot be joined. *)
Definition stuck : ObserverApi :=
  mkObserverApi (Ok tt) (Raise (RuntimeError "cannot join thread")) (fun _ => Ok tt) (Ok tt).

Definition fresh_scraper : Scraper := mkScraper false (mkConfig [] []) None.

Definition both_paths : ScraperConfig :=
  mkScraperConfig (Some true) (Some "/media/movies#movie
/media/tv#tv
/media/gone") (Some "/media/temp").

End ScraperLifecycleExamples.

(** ** Further notions about the subscription reminder *)

Module ReminderNotions.

Import Py Eff SubscribeReminder.







(** A subscription that the loop passes over without asking the host. *)
Definition lacks_key (subscribe : Subscribe) : bool :=
  if String.eqb (sub_type subscribe) "电视剧"
  then negb (nonzero (sub_tmdbid subscribe)) || negb (nonzero (sub_season subscribe))
  else negb (nonzero (sub_tmdbid subscribe)).

(** [''.join(blocks)] *)
Fixpoint concat_text (blocks : list string) : string :=
  match blocks with
  | [] => ""
  | block :: rest => block +:+ concat_text rest
  end.

(** The request the loop sends to the host for a subscription. *)
Definition lookup_of (subscribe : Subscribe) : Action :=
  if String.eqb (sub_type subscribe) "电视剧"
  then TmdbEpisodes (default 0 (sub_tmdbid subscribe)) (default 0 (sub_season subscribe))
  else RecognizeMovie (default 0 (sub_tmdbid subscribe)).

(** The episodes of the subscribed season that the host dates at [date]. *)
Definition episodes_on (h : Host) (date : string) (subscribe : Subscribe) : list nat :=
  aired_on date (tmdb_episodes h (default 0 (sub_tmdbid subscribe))
                               (default 0 (sub_season subscribe))).

(** A TV subscription with its keys, a season of which has an episode
    dated at [date]. *)
Definition airs_on (h : Host) (date : string) (subscribe : Subscribe) : bool :=
  String.eqb (sub_type subscribe) "电视剧" && negb (lacks_key subscribe)
  && bool_decide (episodes_on h date subscribe <> []).

(** A subscription of another type with its key, whose film the host dates
    at [date]. *)
Definition released_on (h : Host) (date : string) (subscribe : Subscribe) : bool :=
  negb (String.eqb (sub_type subscribe) "电视剧") && negb (lacks_key subscribe)
  && match recognize_movie h (default 0 (sub_tmdbid subscribe)) with
     | Some mediainfo => String.eqb (release_date mediainfo) date
     | None => false
     end.

Definition tv_entry_of (h : Host) (date : string) (subscribe : Subscribe) : TvEntry :=
  mkTvEntry (display_name subscribe)
            ("S" +:+ two_digits (default 0 (sub_season subscribe)))
            (episode_field (episodes_on h date subscribe)).

Definition movie_entry_of (subscribe : Subscribe) : MovieEntry :=
  mkMovieEntry (display_name subscribe).

End ReminderNotions.

(** * Properties *)

(** ** The built-ins and the paths on examples *)

Example lower_ex : Py.lower " MoViE" = " movie".
Proof. reflexivity. Qed.
Example strip_ex : Py.strip "  /media/tv shows  " = "/media/tv shows".
Proof. reflexivity. Qed.
Example split_ex : Py.split "010" "a
b
" = ["a"; "b"; ""].
Proof. reflexivity. Qed.
Example rjust_ex : Py.rjust 2 "0" (pretty 7) = "07".
Proof. reflexivity. Qed.
Example utf8_ex : String.length "季" = 3.
Proof. reflexivity. Qed.

Example of_str_ex1 : of_str "/media//movies/./Heat (1995)/" = mkPath "/" ["media"; "movies"; "Heat (1995)"].
Proof. reflexivity. Qed.
Example of_str_ex2 : str (of_str "/media/movies/Heat.mkv") = "/media/movies/Heat.mkv".
Proof. reflexivity. Qed.
Example of_str_ex3 : of_str "" = mkPath "" [] /\ str (of_str "") = ".".
Proof. split; reflexivity. Qed.
Example suffix_ex : suffix (of_str "/m/Heat.1995.MKV") = ".MKV" /\ stem (of_str "/m/Heat.1995.MKV") = "Heat.1995".
Proof. split; reflexivity. Qed.
Example parent_ex : parent (of_str "/m/a/x.mkv") = of_str "/m/a".
Proof. reflexivity. Qed.
Example is_relative_to_ex :
  is_relative_to (of_str "/media/temp/x") (of_str "/media/temp") = true
  /\ is_relative_to (of_str "/media/temporary") (of_str "/media/temp") = false.
Proof. split; reflexivity. Qed.

(** ** Text helpers *)

Section TextLemmas.

Import Py.



















End TextLemmas.

(** ** The writer *)

Section WriterLemmas.

Import Py Eff.

Context {E : Type}.

Lemma bind_ret_l {A B} (a : A) (f : A -> W E B) : (mret a ≫= f) = f a.
Proof. unfold mbind, mret, W_bind, W_ret. by destruct (f a). Qed.

Lemma bind_ok {A B} (t : list E) (a : A) (f : A -> W E B) :
  ((t, Ok a) : W E A) ≫= f = (t ++ (f a).1, (f a).2).
Proof. unfold mbind, W_bind. by destruct (f a). Qed.

Lemma bind_raise {A B} (t : list E) (e : exn) (f : A -> W E B) :
  ((t, Raise e) : W E A) ≫= f = (t, Raise e).
Proof. reflexivity. Qed.

Lemma bind_emit {B} (e : E) (f : unit -> W E B) :
  (emit e ≫= f) = (e :: (f tt).1, (f tt).2).
Proof. unfold emit. by rewrite bind_ok. Qed.

Lemma try_except_ok {A} (t : list E) (a : A) (h : exn -> W E A) :
  try_except (t, Ok a) h = (t, Ok a).
Proof. reflexivity. Qed.

Lemma try_except_raise {A} (t : list E) (e : exn) (h : exn -> W E A) :
  try_except (t, Raise e) h = (t ++ (h e).1, (h e).2).
Proof. unfold try_except. by destruct (h e). Qed.

(** A property of every emitted effect passes through [bind] and
    [try_except]. *)
Lemma Forall_bind {A B} (P : E -> Prop) (m : W E A) (f : A -> W E B) :
  Forall P m.1 -> (forall a, Forall P (f a).1) -> Forall P (m ≫= f).1.
Proof.
  intros Hm Hf. destruct m as [t [a|e]].
  - rewrite bind_ok. simpl. apply Forall_app. split; [exact Hm|apply Hf].
  - exact Hm.
Qed.

Lemma Forall_try_except {A} (P : E -> Prop) (m : W E A) (h : exn -> W E A) :
  Forall P m.1 -> (forall e, Forall P (h e).1) -> Forall P (try_except m h).1.
Proof.
  intros Hm Hh. destruct m as [t [a|e]].
  - exact Hm.
  - rewrite try_except_raise. simpl. apply Forall_app. split; [exact Hm|apply Hh].
Qed.

Lemma Forall_emit (P : E -> Prop) (e : E) : P e -> Forall P (emit e).1.
Proof. intros H. by constructor. Qed.

Lemma Forall_ret {A} (P : E -> Prop) (a : A) : Forall P (mret a : W E A).1.
Proof. constructor. Qed.

Lemma Forall_lift {A} (P : E -> Prop) (r : Result A) : Forall P (lift r : W E A).1.
Proof. constructor. Qed.

Lemma Forall_raise {A} (P : E -> Prop) (e : exn) : Forall P (raise e : W E A).1.
Proof. constructor. Qed.

End WriterLemmas.

(** ** The library scraper *)

Module LibraryScraperProofs.

Import Py Eff LibraryScraper.

(** *** Parsing the monitored paths *)






Ltac case_if :=
  match goal with |- context [if ?b then _ else _] => destruct b end.

(** *** What one call emits *)

Ltac effects :=
  repeat first
    [ apply Forall_bind; [|intros ?]
    | apply Forall_try_except; [|intros ?]
    | apply Forall_emit
    | apply Forall_ret
    | apply Forall_lift
    | apply Forall_raise
    | progress unfold log, iterdir, open_rb, stat_mtime, call_recognize_media,
        call_obtain_images, call_scrape_metadata, background_task
    | match goal with |- Forall _ (match ?x with _ => _ end).1 => destruct x end
    | match goal with |- Forall _ (if ?x then _ else _).1 => destruct x end
    | exact I
    | assumption ].

Lemma probe_files_passive w files : Forall passive (probe_files w files).1.
Proof.
  induction files as [|f files IH]; [apply Forall_ret|].
  cbn [probe_files]. effects.
Qed.

Lemma check_passive w d : Forall passive (_check_files_ready w d).1.
Proof. unfold _check_files_ready. effects. apply probe_files_passive. Qed.

Lemma identify_by_config_passive w d entries :
  Forall passive (identify_by_config w d entries).1.
Proof.
  induction entries as [|[base mtype] rest IH]; [apply Forall_ret|].
  cbn [identify_by_config]. effects.
Qed.

Lemma identify_passive cfg w d : Forall passive (_identify_media cfg w d).1.
Proof.
  unfold _identify_media, auto_recognize. effects.
  apply identify_by_config_passive.
Qed.

Lemma probe_files_quiet D w files : Forall (quiet D) (probe_files w files).1.
Proof.
  induction files as [|f files IH]; [apply Forall_ret|].
  cbn [probe_files]. effects.
Qed.

Lemma identify_by_config_quiet D w d entries :
  Forall (quiet D) (identify_by_config w d entries).1.
Proof.
  induction entries as [|[base mtype] rest IH]; [apply Forall_ret|].
  cbn [identify_by_config]. effects.
Qed.

(** [_check_files_ready] answers; it never raises. *)
Lemma check_total w d : (_check_files_ready w d).2 = Ok (files_ready w d).
Proof.
  unfold files_ready.
  assert (H : exists b, (_check_files_ready w d).2 = Ok b).
  { unfold _check_files_ready.
    destruct (files ← iterdir w d; probe_files w files;; mret true) as [t [b|e]].
    - by exists b.
    - rewrite try_except_raise. destruct (is_IOError e); [by exists false|].
      exists false. unfold log. by rewrite bind_emit. }
  destruct H as [b Hb]. by rewrite Hb.
Qed.

(** [_scrape_directory] enters once, does passive work, and returns. *)
Lemma scrape_shape cfg w d :
  exists t, _scrape_directory cfg w d = (EnterScrape d :: t, Ok tt) /\ Forall passive t.
Proof.
  unfold _scrape_directory. rewrite bind_emit.
  match goal with |- context [try_except ?b ?h] => set (body := b); set (hd := h) end.
  exists (try_except body hd).1. split.
  - f_equal. destruct body as [t [[]|e]]; [reflexivity|].
    rewrite try_except_raise. reflexivity.
  - subst body hd. effects. all: apply identify_by_config_passive.
Qed.

Lemma handle_excluded cfg w d :
  _is_excluded cfg d = true ->
  handle_media_directory cfg w d = ([Log DEBUG ("已排除目录: " +:+ str d)], Ok tt).
Proof. intros H. unfold handle_media_directory. by rewrite H. Qed.

Lemma handle_not_ready cfg w d :
  _is_excluded cfg d = false -> files_ready w d = false ->
  handle_media_directory cfg w d =
  ((_check_files_ready w d).1 ++
     [Log INFO ("文件未就绪，等待重试: " +:+ str d); BackgroundTask 2 (Retry d)],
   Ok tt).
Proof.
  intros He Hr. unfold handle_media_directory. rewrite He.
  pose proof (check_total w d) as Hc. rewrite Hr in Hc.
  destruct (_check_files_ready w d) as [t r]. simpl in Hc. subst r.
  by rewrite bind_ok.
Qed.

Lemma handle_ready cfg w d :
  _is_excluded cfg d = false -> files_ready w d = true ->
  handle_media_directory cfg w d =
  ((_check_files_ready w d).1 ++ (_scrape_directory cfg w d).1, Ok tt).
Proof.
  intros He Hr. unfold handle_media_directory. rewrite He.
  pose proof (check_total w d) as Hc. rewrite Hr in Hc.
  destruct (_check_files_ready w d) as [t r]. simpl in Hc. subst r.
  rewrite bind_ok. simpl.
  destruct (scrape_shape cfg w d) as (t2 & -> & _). reflexivity.
Qed.

(** *** Counting effects *)

Lemma scrapes_app D a b : scrapes_of D (a ++ b) = scrapes_of D a + scrapes_of D b.
Proof. unfold scrapes_of. by rewrite List.filter_app, length_app. Qed.

Lemma probes_app D a b : probes_of D (a ++ b) = probes_of D a + probes_of D b.
Proof. unfold probes_of. by rewrite List.filter_app, length_app. Qed.

Lemma spawned_app t a b : spawned t (a ++ b) = spawned t a ++ spawned t b.
Proof. apply omap_app. Qed.

Lemma retry_dues_app D a b : retry_dues D (a ++ b) = retry_dues D a ++ retry_dues D b.
Proof. apply omap_app. Qed.

Lemma discard_dues_app s a b : discard_dues s (a ++ b) = discard_dues s a ++ discard_dues s b.
Proof. apply omap_app. Qed.

Lemma passive_scrapes D t : Forall passive t -> scrapes_of D t = 0.
Proof.
  induction 1 as [|e t He _ IH]; [reflexivity|].
  unfold scrapes_of in *. simpl. destruct e; simpl in *; try done.
  all: by rewrite bool_decide_eq_false_2.
Qed.

Lemma passive_spawned now t : Forall passive t -> spawned now t = [].
Proof.
  induction 1 as [|e t He _ IH]; [reflexivity|].
  unfold spawned in *. destruct e; simpl in *; done.
Qed.

Lemma quiet_scrapes D t : Forall (quiet D) t -> scrapes_of D t = 0.
Proof.
  induction 1 as [|e t He _ IH]; [reflexivity|].
  unfold scrapes_of in *. simpl.
  destruct (bool_decide_reflect (e = EnterScrape D)) as [->|]; [by simpl in He|done].
Qed.

Lemma quiet_probes D t : Forall (quiet D) t -> probes_of D t = 0.
Proof.
  induction 1 as [|e t He _ IH]; [reflexivity|].
  unfold probes_of in *. simpl.
  destruct (bool_decide_reflect (e = IterDir D)) as [->|]; [by simpl in He|done].
Qed.

Lemma quiet_retry_dues D now t : Forall (quiet D) t -> retry_dues D (spawned now t) = [].
Proof.
  induction 1 as [|e t He _ IH]; [reflexivity|].
  unfold retry_dues, spawned in *. destruct e; simpl in *; try done.
  destruct (bool_decide_reflect (task = Retry D)) as [->|]; [by simpl in He|done].
Qed.

Lemma spawned_no_discard s now t :
  Forall (fun e => forall delay, e <> BackgroundTask delay (Discard s)) t ->
  discard_dues s (spawned now t) = [].
Proof.
  induction 1 as [|e t He _ IH]; [reflexivity|].
  unfold discard_dues, spawned in *. destruct e; simpl in *; try done.
  destruct (bool_decide_reflect (task = Discard s)) as [->|]; [|done].
  by destruct (He delay).
Qed.

(** *** [handle_media_directory], summed up *)

Lemma handle_other_quiet cfg w D d :
  d <> D -> Forall (quiet D) (handle_media_directory cfg w d).1.
Proof.
  intros Hd. unfold handle_media_directory, _check_files_ready, _scrape_directory,
    _identify_media, auto_recognize.
  effects.
  all: first [apply probe_files_quiet | apply identify_by_config_quiet].
Qed.

Lemma handle_quiet cfg w D d :
  _is_excluded cfg D = true -> Forall (quiet D) (handle_media_directory cfg w d).1.
Proof.
  intros He. destruct (decide (d = D)) as [->|Hd].
  - rewrite handle_excluded by done. by repeat constructor.
  - by apply handle_other_quiet.
Qed.

Lemma handle_returns cfg w d : (handle_media_directory cfg w d).2 = Ok tt.
Proof.
  destruct (_is_excluded cfg d) eqn:He; [by rewrite handle_excluded|].
  destruct (files_ready w d) eqn:Hr.
  - by rewrite handle_ready.
  - by rewrite handle_not_ready.
Qed.

Lemma handle_scrapes cfg w D d :
  scrapes_of D (handle_media_directory cfg w d).1 =
  if bool_decide (d = D) && negb (_is_excluded cfg d) && files_ready w d then 1 else 0.
Proof.
  destruct (_is_excluded cfg d) eqn:He.
  { rewrite handle_excluded by done. by rewrite andb_false_r. }
  destruct (files_ready w d) eqn:Hr.
  - rewrite handle_ready by done. simpl fst.
    destruct (scrape_shape cfg w d) as (t & -> & Ht). simpl fst.
    rewrite scrapes_app, (passive_scrapes _ _ (check_passive w d)).
    change (EnterScrape d :: t) with ([EnterScrape d] ++ t).
    rewrite scrapes_app, (passive_scrapes _ _ Ht). unfold scrapes_of. simpl.
    destruct (decide (d = D)) as [->|Hd].
    + by rewrite !bool_decide_eq_true_2.
    + rewrite !bool_decide_eq_false_2; [done..|congruence].
  - rewrite handle_not_ready by done. simpl fst.
    rewrite scrapes_app, (passive_scrapes _ _ (check_passive w d)).
    by rewrite andb_false_r.
Qed.

Lemma handle_spawned cfg w t d :
  spawned t (handle_media_directory cfg w d).1 =
  if negb (_is_excluded cfg d) && negb (files_ready w d) then [(t + 2, Retry d)] else [].
Proof.
  destruct (_is_excluded cfg d) eqn:He.
  { by rewrite handle_excluded. }
  destruct (files_ready w d) eqn:Hr.
  - rewrite handle_ready by done. simpl fst.
    destruct (scrape_shape cfg w d) as (t2 & -> & Ht). simpl fst.
    rewrite spawned_app, (passive_spawned _ _ (check_passive w d)).
    change (EnterScrape d :: t2) with ([EnterScrape d] ++ t2).
    by rewrite spawned_app, (passive_spawned _ _ Ht).
  - rewrite handle_not_ready by done. simpl fst.
    by rewrite spawned_app, (passive_spawned _ _ (check_passive w d)).
Qed.

(** *** The scheduler, step by step *)

Lemma run_task_eq cfg w st task :
  run_task cfg w st task =
  mkState (now st) (task_pp (processed_paths st) task)
          (timers st ++ spawned (now st) (task_out cfg w task))
          (trace st ++ task_out cfg w task).
Proof.
  destruct task; unfold run_task, commit; simpl; [|reflexivity].
  by rewrite !app_nil_r.
Qed.

Lemma run_tasks_eq cfg w tasks st :
  run_tasks cfg w st tasks =
  mkState (now st) (foldl task_pp (processed_paths st) tasks)
          (timers st ++ spawned (now st) (tasks ≫= task_out cfg w))
          (trace st ++ (tasks ≫= task_out cfg w)).
Proof.
  revert st. induction tasks as [|task tasks IH]; intros st.
  - simpl. rewrite !app_nil_r. by destruct st.
  - unfold run_tasks in *. cbn [foldl]. rewrite IH, run_task_eq. simpl.
    rewrite spawned_app, !app_assoc. reflexivity.
Qed.

Lemma tick_eq cfg env st :
  tick cfg env st =
  let t := S (now st) in
  let due := (List.filter (is_due t) (timers st)).*2 in
  let outs := due ≫= task_out cfg (env t) in
  mkState t (foldl task_pp (processed_paths st) due)
          (List.filter (fun x => negb (is_due t x)) (timers st) ++ spawned t outs)
          (trace st ++ outs).
Proof. unfold tick. by rewrite run_tasks_eq. Qed.

Lemma now_tick cfg env st : now (tick cfg env st) = S (now st).
Proof. by rewrite tick_eq. Qed.

Lemma due_retries D t q :
  retry_count D ((List.filter (is_due t) q).*2) =
  length (List.filter (fun d => Nat.leb d t) (retry_dues D q)).
Proof.
  induction q as [|[d task] q IH]; [reflexivity|].
  unfold retry_dues, retry_count in *.
  cbn [List.filter omap list_omap]. unfold is_due at 1. cbn [fst snd].
  destruct (Nat.leb d t) eqn:Hd;
    destruct (bool_decide_reflect (task = Retry D)) as [->|Hne];
    cbn [List.filter fmap list_fmap snd length];
    rewrite ?Hd, ?bool_decide_eq_true_2, ?bool_decide_eq_false_2 by done;
    cbn [length]; by rewrite ?IH.
Qed.

Lemma later_retries D t q :
  retry_dues D (List.filter (fun x => negb (is_due t x)) q) =
  List.filter (fun d => negb (Nat.leb d t)) (retry_dues D q).
Proof.
  induction q as [|[d task] q IH]; [reflexivity|].
  unfold retry_dues in *.
  cbn [List.filter omap list_omap]. unfold is_due at 1. cbn [fst snd].
  destruct (Nat.leb d t) eqn:Hd;
    destruct (bool_decide_reflect (task = Retry D)) as [->|Hne];
    cbn [List.filter omap list_omap negb snd fst];
    rewrite ?Hd, ?bool_decide_eq_true_2, ?bool_decide_eq_false_2 by done;
    cbn [negb]; by rewrite ?IH.
Qed.

Lemma retry_count_cons D task tasks :
  retry_count D (task :: tasks) =
  (if bool_decide (task = Retry D) then 1 else 0) + retry_count D tasks.
Proof.
  unfold retry_count. cbn [List.filter].
  by destruct (bool_decide (task = Retry D)).
Qed.

Lemma outs_retries cfg w D t tasks :
  retry_dues D (spawned t (tasks ≫= task_out cfg w)) =
  if negb (_is_excluded cfg D) && negb (files_ready w D)
  then replicate (retry_count D tasks) (t + 2) else [].
Proof.
  induction tasks as [|task tasks IH].
  - by destruct (_ && _).
  - rewrite bind_cons, spawned_app, retry_dues_app, IH, retry_count_cons. clear IH.
    destruct task as [s|d]; cbn [task_out].
    + by rewrite bool_decide_eq_false_2.
    + rewrite handle_spawned.
      destruct (decide (d = D)) as [->|Hne].
      * rewrite bool_decide_eq_true_2 by done.
        destruct (_ && _); [|done]. unfold retry_dues at 1.
        cbn [omap list_omap snd fst]. by rewrite bool_decide_eq_true_2.
      * rewrite bool_decide_eq_false_2 by congruence.
        destruct (negb (_is_excluded cfg d) && negb (files_ready w d)); [|done].
        unfold retry_dues at 1. cbn [omap list_omap snd fst].
        by rewrite bool_decide_eq_false_2 by congruence.
Qed.

Lemma outs_scrapes cfg w D tasks :
  scrapes_of D (tasks ≫= task_out cfg w) =
  if negb (_is_excluded cfg D) && files_ready w D
  then retry_count D tasks else 0.
Proof.
  induction tasks as [|task tasks IH].
  - by destruct (_ && _).
  - rewrite bind_cons, scrapes_app, IH, retry_count_cons. clear IH.
    destruct task as [s|d]; cbn [task_out].
    + rewrite bool_decide_eq_false_2 by done. reflexivity.
    + rewrite handle_scrapes.
      destruct (decide (d = D)) as [->|Hne].
      * rewrite !bool_decide_eq_true_2 by done. cbn [andb]. by destruct (_ && _).
      * rewrite !bool_decide_eq_false_2 by congruence. cbn [andb].
        by destruct (_ && _).
Qed.

(** After a tick: the retries of [D] that were due have run, each with the
    same answer of the probe; a failed probe queues the next retry two units
    on, a successful one enters the scrape. *)
Lemma tick_retries cfg env D st :
  let t := S (now st) in
  let fired := length (List.filter (fun d => Nat.leb d t) (retry_dues D (timers st))) in
  retry_dues D (timers (tick cfg env st)) =
  List.filter (fun d => negb (Nat.leb d t)) (retry_dues D (timers st)) ++
  (if negb (_is_excluded cfg D) && negb (files_ready (env t) D)
   then replicate fired (t + 2) else []).
Proof.
  intros t fired. rewrite tick_eq. simpl.
  by rewrite retry_dues_app, later_retries, outs_retries, due_retries.
Qed.

Lemma tick_scrapes cfg env D st :
  let t := S (now st) in
  let fired := length (List.filter (fun d => Nat.leb d t) (retry_dues D (timers st))) in
  scrapes_of D (trace (tick cfg env st)) =
  scrapes_of D (trace st) +
  (if negb (_is_excluded cfg D) && files_ready (env t) D then fired else 0).
Proof.
  intros t fired. rewrite tick_eq. simpl.
  by rewrite scrapes_app, outs_scrapes, due_retries.
Qed.

Lemma ticks_S cfg env m st :
  ticks cfg env (S m) st = tick cfg env (ticks cfg env m st).
Proof.
  unfold ticks, run. rewrite replicate_S_end, foldl_app. reflexivity.
Qed.

Lemma now_ticks cfg env m st : now (ticks cfg env m st) = now st + m.
Proof.
  induction m as [|m IH]; [unfold ticks; simpl; lia|].
  rewrite ticks_S, now_tick, IH. lia.
Qed.

(** *** The readiness probe *)

Lemma open_rb_eq w f :
  open_rb w f =
  ([OpenFile f],
   match fs_open_rb w f with Some msg => Raise (OSError msg) | None => Ok tt end).
Proof. unfold open_rb. by rewrite bind_emit. Qed.

Lemma iterdir_eq w d : iterdir w d = ([IterDir d], os_result (fs_iterdir w d)).
Proof. unfold iterdir. by rewrite bind_emit. Qed.

Lemma probe_unreadable w files f msg :
  f ∈ files -> fs_is_file w f = true -> is_media w f = true ->
  fs_open_rb w f = Some msg ->
  exists t m, probe_files w files = (t, Raise (OSError m)).
Proof.
  intros Hin Hfile Hmedia Hopen.
  induction files as [|g files IH]; [by apply elem_of_nil in Hin|].
  cbn [probe_files].
  destruct (decide (g = f)) as [->|Hne].
  - rewrite Hfile, Hmedia. cbn [andb]. rewrite open_rb_eq, Hopen. by eexists _, _.
  - apply elem_of_cons in Hin as [->|Hin]; [done|].
    destruct (IH Hin) as (t & m & Hrest).
    destruct (fs_is_file w g && is_media w g).
    + rewrite open_rb_eq. destruct (fs_open_rb w g) as [m'|].
      * by eexists _, _.
      * rewrite bind_ok, Hrest. by eexists _, _.
    + rewrite bind_ret_l, Hrest. by eexists _, _.
Qed.

(** A directory with a media file that cannot be opened is not ready. *)
Lemma unreadable_not_ready w D files f msg :
  fs_iterdir w D = inr files ->
  f ∈ files -> fs_is_file w f = true -> is_media w f = true ->
  fs_open_rb w f = Some msg ->
  files_ready w D = false.
Proof.
  intros Hdir Hin Hfile Hmedia Hopen.
  destruct (probe_unreadable w files f msg Hin Hfile Hmedia Hopen) as (t & m & Hp).
  unfold files_ready, _check_files_ready.
  rewrite iterdir_eq, Hdir. cbn [os_result].
  rewrite bind_ok, Hp. reflexivity.
Qed.

(** *** The polling loop *)

Section Polling.

Variable cfg : Config.
Variable env : nat -> World.
Variable D : Path.
Hypothesis not_excluded : _is_excluded cfg D = false.

Variable N : nat.
Variable st : State.
Hypothesis no_chain : retry_dues D (timers st) = [].
Hypothesis locked : forall k, k < N -> files_ready (env (now st + 2 * k)) D = false.
Hypothesis released : files_ready (env (now st + 2 * N)) D = true.

Let st1 := commit st (processed_paths st) (handle_media_directory cfg (env (now st)) D).

Lemma half_even i : (2 * i) / 2 = i.
Proof. symmetry. apply (Nat.div_unique _ _ _ 0); lia. Qed.

Lemma half_odd i : (2 * i + 1) / 2 = i.
Proof. symmetry. apply (Nat.div_unique _ _ _ 1); lia. Qed.


End Polling.

(** *** Events *)

Lemma commit_nothing st : commit st (processed_paths st) (mret tt) = st.
Proof. unfold commit. simpl. rewrite !app_nil_r. by destruct st. Qed.

Lemma process_eq cfg w d pp :
  _process_directory cfg w d pp =
  if decide (str d ∈ pp) then (pp, mret tt)
  else (pp ∪ {[str d]},
        (BackgroundTask 10 (Discard (str d)) :: (handle_media_directory cfg w d).1,
         Ok tt)).
Proof.
  unfold _process_directory. destruct (decide (str d ∈ pp)); [reflexivity|].
  unfold background_task. by rewrite bind_emit, handle_returns.
Qed.

(** An event is dropped, or it reaches [_process_directory] with the parent
    of its path. *)
Lemma handle_event_cases cfg w path_str pp :
  _handle_event cfg w path_str pp = (pp, mret tt)
  \/ _handle_event cfg w path_str pp =
     _process_directory cfg w (parent (of_str path_str)) pp.
Proof.
  unfold _handle_event. destruct (String.eqb path_str ""); [by left|].
  destruct (fs_is_dir w (of_str path_str) || negb (is_media w (of_str path_str)));
    [by left|by right].
Qed.

Lemma handle_event_media cfg w path_str pp :
  path_str <> "" -> fs_is_dir w (of_str path_str) = false ->
  is_media w (of_str path_str) = true ->
  _handle_event cfg w path_str pp =
  _process_directory cfg w (parent (of_str path_str)) pp.
Proof.
  intros Hne Hdir Hmedia. unfold _handle_event.
  destruct (String.eqb_spec path_str ""); [done|]. by rewrite Hdir, Hmedia.
Qed.

(** The state after an event: unchanged, or the directory inserted, its
    eviction queued and [handle_media_directory] run. *)
Lemma step_event_cases cfg env st path_str :
  let d := parent (of_str path_str) in
  let w := env (now st) in
  let st' :=
    (let '(pp, out) := _handle_event cfg w path_str (processed_paths st) in
     commit st pp out) in
  st' = st
  \/ ((str d ∉ processed_paths st)
      /\ st' = commit st (processed_paths st ∪ {[str d]})
                 (BackgroundTask 10 (Discard (str d)) ::
                    (handle_media_directory cfg w d).1, Ok tt)).
Proof.
  intros d w.
  destruct (handle_event_cases cfg w path_str (processed_paths st)) as [->| ->].
  - left. apply commit_nothing.
  - rewrite process_eq. fold d. destruct (decide (str d ∈ processed_paths st)).
    + left. apply commit_nothing.
    + right. by split.
Qed.

(** *** Excluded directories *)

Lemma outs_quiet cfg w D tasks :
  _is_excluded cfg D = true -> Forall (quiet D) (tasks ≫= task_out cfg w).
Proof.
  intros He. induction tasks as [|task tasks IH]; [constructor|].
  rewrite bind_cons. apply Forall_app. split; [|exact IH].
  destruct task; [constructor|]. by apply handle_quiet.
Qed.

Lemma filter_le_length {A} (f : A -> bool) (l : list A) :
  length (List.filter f l) <= length l.
Proof. induction l as [|x l IH]; simpl; [lia|]. destruct (f x); simpl; lia. Qed.

Lemma step_excluded cfg env D st i :
  _is_excluded cfg D = true ->
  scrapes_of D (trace (step cfg env st i)) = scrapes_of D (trace st)
  /\ probes_of D (trace (step cfg env st i)) = probes_of D (trace st)
  /\ retries_of D (timers (step cfg env st i)) <= retries_of D (timers st).
Proof.
  intros He.
  assert (Hev : forall path_str,
    let st' := (let '(pp, out) :=
                  _handle_event cfg (env (now st)) path_str (processed_paths st) in
                commit st pp out) in
    scrapes_of D (trace st') = scrapes_of D (trace st)
    /\ probes_of D (trace st') = probes_of D (trace st)
    /\ retries_of D (timers st') <= retries_of D (timers st)).
  { intros path_str.
    destruct (step_event_cases cfg env st path_str) as [->|[_ ->]]; [done|].
    set (d := parent (of_str path_str)).
    pose proof (handle_quiet cfg (env (now st)) D d He) as Hq.
    assert (Hq' : Forall (quiet D)
      (BackgroundTask 10 (Discard (str d)) ::
         (handle_media_directory cfg (env (now st)) d).1)) by by constructor.
    unfold commit, retries_of. cbn [trace timers fst].
    rewrite scrapes_app, probes_app, retry_dues_app, length_app.
    rewrite (quiet_scrapes _ _ Hq'), (quiet_probes _ _ Hq'), (quiet_retry_dues _ _ _ Hq').
    simpl. lia. }
  destruct i as [|p|p]; [|apply Hev..].
  cbn [step]. unfold retries_of. rewrite tick_retries, tick_eq. cbn [trace].
  pose proof (outs_quiet cfg (env (S (now st)))
    D (List.filter (is_due (S (now st))) (timers st)).*2 He) as Hq.
  rewrite scrapes_app, probes_app, (quiet_scrapes _ _ Hq), (quiet_probes _ _ Hq), He.
  cbn [negb andb]. rewrite app_nil_r.
  split_and!; [lia..|apply filter_le_length].
Qed.

(** C2. A directory that is nested under an excluded path is never scraped:
    [handle_media_directory] only logs that the directory is excluded and
    returns, before the readiness probe, without scraping and without
    scheduling a retry; and whatever file events and timer firings follow,
    from any state, no scrape of the directory is entered, it is never
    probed, and no retry for it is added. *)
Theorem C2_excluded_directory_never_scraped cfg env D inputs st :
  _is_excluded cfg D = true ->
  (forall w, handle_media_directory cfg w D =
             ([Log DEBUG ("已排除目录: " +:+ str D)], Ok tt))
  /\ scrapes_of D (trace (run cfg env inputs st)) = scrapes_of D (trace st)
  /\ probes_of D (trace (run cfg env inputs st)) = probes_of D (trace st)
  /\ retries_of D (timers (run cfg env inputs st)) <= retries_of D (timers st).
Proof.
  intros He. split; [intros w; by apply handle_excluded|].
  revert st. induction inputs as [|i inputs IH]; intros st; [done|].
  unfold run in *. cbn [foldl].
  destruct (IH (step cfg env st i)) as (Hs & Hp & Hr).
  destruct (step_excluded cfg env D st i He) as (Hs' & Hp' & Hr').
  split_and!; [congruence..|lia].
Qed.


(** *** The handler's set and its evictions *)

Lemma due_discards s t q :
  discard_count s ((List.filter (is_due t) q).*2) =
  length (List.filter (fun d => Nat.leb d t) (discard_dues s q)).
Proof.
  induction q as [|[d task] q IH]; [reflexivity|].
  unfold discard_dues, discard_count in *.
  cbn [List.filter omap list_omap]. unfold is_due at 1. cbn [fst snd].
  destruct (Nat.leb d t) eqn:Hd;
    destruct (bool_decide_reflect (task = Discard s)) as [->|Hne];
    cbn [List.filter fmap list_fmap snd length];
    rewrite ?Hd, ?bool_decide_eq_true_2, ?bool_decide_eq_false_2 by done;
    cbn [length]; by rewrite ?IH.
Qed.

Lemma later_discards s t q :
  discard_dues s (List.filter (fun x => negb (is_due t x)) q) =
  List.filter (fun d => negb (Nat.leb d t)) (discard_dues s q).
Proof.
  induction q as [|[d task] q IH]; [reflexivity|].
  unfold discard_dues in *.
  cbn [List.filter omap list_omap]. unfold is_due at 1. cbn [fst snd].
  destruct (Nat.leb d t) eqn:Hd;
    destruct (bool_decide_reflect (task = Discard s)) as [->|Hne];
    cbn [List.filter omap list_omap negb snd fst];
    rewrite ?Hd, ?bool_decide_eq_true_2, ?bool_decide_eq_false_2 by done;
    cbn [negb]; by rewrite ?IH.
Qed.

Lemma handle_no_discards cfg w s t d :
  discard_dues s (spawned t (handle_media_directory cfg w d).1) = [].
Proof. rewrite handle_spawned. by case_if. Qed.

Lemma outs_no_discards cfg w s t tasks :
  discard_dues s (spawned t (tasks ≫= task_out cfg w)) = [].
Proof.
  induction tasks as [|task tasks IH]; [reflexivity|].
  rewrite bind_cons, spawned_app, discard_dues_app, IH, app_nil_r.
  destruct task; [reflexivity|apply handle_no_discards].
Qed.

Lemma discard_count_cons s task tasks :
  discard_count s (task :: tasks) =
  (if bool_decide (task = Discard s) then 1 else 0) + discard_count s tasks.
Proof.
  unfold discard_count. cbn [List.filter].
  by destruct (bool_decide (task = Discard s)).
Qed.

Lemma elem_of_foldl_task_pp s tasks pp :
  s ∈ foldl task_pp pp tasks <-> s ∈ pp /\ discard_count s tasks = 0.
Proof.
  revert pp. induction tasks as [|task tasks IH]; intros pp.
  - simpl. unfold discard_count. simpl. naive_solver.
  - cbn [foldl]. rewrite IH, discard_count_cons.
    destruct task as [s'|d]; cbn [task_pp].
    + destruct (bool_decide_reflect (Discard s' = Discard s)) as [[= ->]|Hne].
      * set_solver.
      * assert (s <> s') by congruence. set_solver.
    + rewrite bool_decide_eq_false_2 by done. naive_solver.
Qed.

Lemma tick_discards cfg env s st :
  discard_dues s (timers (tick cfg env st)) =
  List.filter (fun d => negb (Nat.leb d (S (now st)))) (discard_dues s (timers st)).
Proof.
  rewrite tick_eq. cbn zeta. cbn [timers].
  by rewrite discard_dues_app, later_discards, outs_no_discards, app_nil_r.
Qed.

Lemma elem_of_tick cfg env s st :
  s ∈ processed_paths (tick cfg env st) <->
  s ∈ processed_paths st
  /\ List.filter (fun d => Nat.leb d (S (now st))) (discard_dues s (timers st)) = [].
Proof.
  rewrite tick_eq. cbn zeta. cbn [processed_paths].
  rewrite elem_of_foldl_task_pp, due_discards.
  by rewrite length_zero_iff_nil.
Qed.

(** While the eviction of [D] is ahead, a tick leaves [D] in the set. *)
Lemma tick_pending cfg env D T st :
  pending_until D T st -> S (now st) < T ->
  pending_until D T (tick cfg env st).
Proof.
  intros (Hin & Hdue & Hnow) Hlt. unfold pending_until.
  rewrite elem_of_tick, tick_discards, now_tick, Hdue. cbn [List.filter].
  assert (Hleb : Nat.leb T (S (now st)) = false) by (apply Nat.leb_gt; lia).
  rewrite Hleb. by cbn [negb].
Qed.

(** At the instant the eviction falls due, a tick removes [D]. *)
Lemma tick_evicts cfg env D T st :
  pending_until D T st -> S (now st) = T ->
  str D ∉ processed_paths (tick cfg env st).
Proof.
  intros (Hin & Hdue & Hnow) Heq. rewrite elem_of_tick, Hdue. cbn [List.filter].
  assert (Hleb : Nat.leb T (S (now st)) = true) by (apply Nat.leb_le; lia).
  rewrite Hleb. naive_solver.
Qed.

(** While [D] is in the set, an event on it changes nothing. *)
Lemma event_while_pending cfg env D st i :
  str D ∈ processed_paths st -> on_directory D i -> i <> Tick ->
  step cfg env st i = st.
Proof.
  intros Hin Hon Hev.
  assert (H : forall path_str, parent (of_str path_str) = D ->
    (let '(pp, out) :=
       _handle_event cfg (env (now st)) path_str (processed_paths st) in
     commit st pp out) = st).
  { intros path_str Hp.
    destruct (step_event_cases cfg env st path_str) as [H|[Hnot _]]; [exact H|].
    rewrite Hp in Hnot. done. }
  destruct i as [|p|p]; [done|by apply H..].
Qed.

(** *** The scrape budget *)

Lemma tick_budget cfg env D st : budget D (tick cfg env st) <= budget D st.
Proof.
  unfold budget, retries_of. rewrite tick_retries, tick_scrapes. cbn zeta.
  rewrite length_app.
  pose proof (List.filter_length (fun d => Nat.leb d (S (now st)))
                (retry_dues D (timers st))) as Hpart.
  destruct (negb (_is_excluded cfg D)); cbn [andb];
    [destruct (files_ready (env (S (now st))) D); cbn [negb]|];
    rewrite ?length_replicate; cbn [length]; lia.
Qed.

Lemma event_budget cfg env D st i :
  i <> Tick -> budget D (step cfg env st i) <= budget D st + 1.
Proof.
  intros Hev.
  assert (H : forall path_str,
    budget D (let '(pp, out) :=
                _handle_event cfg (env (now st)) path_str (processed_paths st) in
              commit st pp out) <= budget D st + 1).
  { intros path_str.
    destruct (step_event_cases cfg env st path_str) as [->|[_ ->]]; [lia|].
    set (d := parent (of_str path_str)).
    unfold budget, retries_of, commit. cbn [trace timers fst].
    change (BackgroundTask 10 (Discard (str d)) ::
              (handle_media_directory cfg (env (now st)) d).1)
      with ([BackgroundTask 10 (Discard (str d))] ++
              (handle_media_directory cfg (env (now st)) d).1).
    rewrite !scrapes_app, !spawned_app, !retry_dues_app, !length_app.
    rewrite handle_scrapes, handle_spawned.
    change (scrapes_of D [BackgroundTask 10 (Discard (str d))]) with 0.
    change (retry_dues D (spawned (now st) [BackgroundTask 10 (Discard (str d))]))
      with (@nil nat).
    destruct (negb (_is_excluded cfg d)), (files_ready (env (now st)) d),
      (bool_decide (d = D)); cbn [andb negb length retry_dues omap list_omap];
      try lia.
    all: case_if; cbn [length]; lia. }
  destruct i as [|p|p]; [done|apply H..].
Qed.

(** *** Reachable states *)

Lemma step_consistent cfg env st i :
  evictions_consistent st -> evictions_consistent (step cfg env st i).
Proof.
  intros Hinv.
  assert (Hev : forall path_str,
    evictions_consistent
      (let '(pp, out) :=
         _handle_event cfg (env (now st)) path_str (processed_paths st) in
       commit st pp out)).
  { intros path_str.
    destruct (step_event_cases cfg env st path_str) as [->|[Hnot ->]]; [done|].
    set (d := parent (of_str path_str)) in *. intros s.
    destruct (Hinv s) as [Hlen Hout].
    unfold commit. cbn [timers processed_paths fst].
    change (BackgroundTask 10 (Discard (str d)) ::
              (handle_media_directory cfg (env (now st)) d).1)
      with ([BackgroundTask 10 (Discard (str d))] ++
              (handle_media_directory cfg (env (now st)) d).1).
    rewrite spawned_app, !discard_dues_app, handle_no_discards, app_nil_r.
    unfold discard_dues at 2 4. cbn [spawned omap list_omap snd fst].
    destruct (decide (s = str d)) as [->|Hne].
    - rewrite (proj2 (Hinv (str d)) Hnot), bool_decide_eq_true_2 by done.
      split; [simpl; lia|]. intros Hs. exfalso. apply Hs. set_solver.
    - rewrite bool_decide_eq_false_2 by congruence. rewrite app_nil_r.
      split; [done|]. intros Hs. apply Hout. set_solver. }
  destruct i as [|p|p]; [|apply Hev..].
  cbn [step]. intros s. destruct (Hinv s) as [Hlen Hout].
  rewrite tick_discards, elem_of_tick.
  pose proof (List.filter_length (fun d => Nat.leb d (S (now st)))
                (discard_dues s (timers st))) as Hpart.
  split; [lia|]. intros Hs.
  destruct (decide (s ∈ processed_paths st)) as [Hin|Hnot].
  - apply length_zero_iff_nil.
    destruct (List.filter (fun d => Nat.leb d (S (now st)))
                (discard_dues s (timers st))) as [|x l] eqn:Hf.
    + exfalso. by apply Hs.
    + simpl in Hpart. lia.
  - by rewrite (Hout Hnot).
Qed.

Lemma run_consistent cfg env inputs st :
  evictions_consistent st -> evictions_consistent (run cfg env inputs st).
Proof.
  revert st. induction inputs as [|i inputs IH]; intros st Hinv; [done|].
  unfold run in *. cbn [foldl]. by apply IH, step_consistent.
Qed.

Lemma reachable_consistent cfg env st :
  reachable cfg env st -> evictions_consistent st.
Proof.
  intros [inputs ->]. apply run_consistent. intros s. split; [simpl; lia|done].
Qed.

(** *** The debounce window *)

Lemma count_ticks_replicate n : count_ticks (replicate n Tick) = n.
Proof. induction n as [|n IH]; [reflexivity|]. unfold count_ticks in *. simpl. lia. Qed.

Lemma on_directory_replicate D n : Forall (on_directory D) (replicate n Tick).
Proof. induction n; constructor; [exact I|done]. Qed.

Lemma window_run cfg env D T rest st :
  pending_until D T st ->
  Forall (on_directory D) rest ->
  now st + count_ticks rest < T ->
  pending_until D T (run cfg env rest st)
  /\ budget D (run cfg env rest st) <= budget D st
  /\ now (run cfg env rest st) = now st + count_ticks rest.
Proof.
  revert st. induction rest as [|i rest IH]; intros st Hpend Hon Hlt.
  - unfold count_ticks. simpl. split_and!; [done|lia|lia].
  - apply Forall_cons in Hon as [Hi Hon]. unfold run in *. cbn [foldl].
    destruct (decide (i = Tick)) as [->|Hev].
    + assert (Hc : count_ticks (Tick :: rest) = S (count_ticks rest)) by reflexivity.
      rewrite Hc in *. cbn [step].
      destruct (IH (tick cfg env st)) as (Hp & Hb & Hn).
      * apply tick_pending; [done|lia].
      * done.
      * rewrite now_tick. lia.
      * rewrite now_tick in Hn. pose proof (tick_budget cfg env D st).
        split_and!; [done|lia|lia].
    + assert (Hc : count_ticks (i :: rest) = count_ticks rest) by by destruct i.
      rewrite Hc in *.
      rewrite (event_while_pending cfg env D st i) by (done || apply Hpend).
      by apply IH.
Qed.

Lemma ticks_budget cfg env D k st : budget D (ticks cfg env k st) <= budget D st.
Proof.
  induction k as [|k IH]; [done|].
  rewrite ticks_S. pose proof (tick_budget cfg env D (ticks cfg env k st)). lia.
Qed.

(** The first event of a burst. *)
Lemma first_event cfg env D st ev :
  str D ∉ processed_paths st ->
  media_event (env (now st)) D ev ->
  step cfg env st ev =
  commit st (processed_paths st ∪ {[str D]})
    (BackgroundTask 10 (Discard (str D)) ::
       (handle_media_directory cfg (env (now st)) D).1, Ok tt).
Proof.
  intros Hnot Hev.
  assert (H : forall path_str,
    path_str <> "" /\ fs_is_dir (env (now st)) (of_str path_str) = false
    /\ is_media (env (now st)) (of_str path_str) = true
    /\ parent (of_str path_str) = D ->
    (let '(pp, out) :=
       _handle_event cfg (env (now st)) path_str (processed_paths st) in
     commit st pp out) =
    commit st (processed_paths st ∪ {[str D]})
      (BackgroundTask 10 (Discard (str D)) ::
         (handle_media_directory cfg (env (now st)) D).1, Ok tt)).
  { intros path_str (Hne & Hdir & Hmedia & Hparent).
    rewrite handle_event_media, process_eq, Hparent by done.
    by destruct (decide (str D ∈ processed_paths st)). }
  destruct ev as [|p|p]; [done|by apply H..].
Qed.

Lemma first_event_pending cfg env D st ev :
  evictions_consistent st ->
  str D ∉ processed_paths st ->
  media_event (env (now st)) D ev ->
  pending_until D (now st + 10) (step cfg env st ev).
Proof.
  intros Hinv Hnot Hev. rewrite (first_event cfg env D) by done.
  unfold pending_until, commit. cbn [processed_paths timers now fst].
  split_and!; [set_solver| |lia].
  change (BackgroundTask 10 (Discard (str D)) ::
            (handle_media_directory cfg (env (now st)) D).1)
    with ([BackgroundTask 10 (Discard (str D))] ++
            (handle_media_directory cfg (env (now st)) D).1).
  rewrite spawned_app, !discard_dues_app, handle_no_discards, app_nil_r.
  rewrite (proj2 (Hinv (str D)) Hnot).
  unfold discard_dues. cbn [spawned omap list_omap snd fst].
  by rewrite bool_decide_eq_true_2.
Qed.

Lemma run_app cfg env a b st :
  run cfg env (a ++ b) st = run cfg env b (run cfg env a st).
Proof. unfold run. apply foldl_app. Qed.

Lemma count_ticks_app a b : count_ticks (a ++ b) = count_ticks a + count_ticks b.
Proof. unfold count_ticks. by rewrite List.filter_app, length_app. Qed.

(** C1. A burst of file events on one directory [D], opened by an event
    that finds [D] outside the handler's set and followed by events on [D]
    and fewer than ten ticks, makes at most one scrape attempt: the first
    event inserts [D], queues its eviction ten units ahead and runs
    [handle_media_directory] once; every later event of the burst leaves the
    state as it is; pending retries and entered scrapes of [D] together grow
    by at most one, now and however long the timers run on; [D] is in the set
    for the rest of the window and out of it once the ten units are over. *)
Theorem C1_debounce_window cfg env D st ev rest :
  reachable cfg env st ->
  str D ∉ processed_paths st ->
  media_event (env (now st)) D ev ->
  Forall (on_directory D) rest ->
  count_ticks rest < 10 ->
  let st1 := step cfg env st ev in
  let st' := run cfg env rest st1 in
  st1 = commit st (processed_paths st ∪ {[str D]})
          (BackgroundTask 10 (Discard (str D)) ::
             (handle_media_directory cfg (env (now st)) D).1, Ok tt)
  /\ (forall before i after,
        rest = before ++ i :: after -> i <> Tick ->
        step cfg env (run cfg env before st1) i = run cfg env before st1)
  /\ budget D st' <= budget D st + 1
  /\ (forall k, scrapes_of D (trace (ticks cfg env k st')) <= budget D st + 1)
  /\ str D ∈ processed_paths st'
  /\ str D ∉ processed_paths (ticks cfg env (10 - count_ticks rest) st').
Proof.
  intros Hreach Hnot Hev Hon Hticks st1 st'.
  pose proof (reachable_consistent cfg env st Hreach) as Hinv.
  pose proof (first_event_pending cfg env D st ev Hinv Hnot Hev) as Hpend.
  fold st1 in Hpend.
  assert (Hnow1 : now st1 = now st).
  { unfold st1. by rewrite (first_event cfg env D). }
  assert (Hb1 : budget D st1 <= budget D st + 1).
  { apply event_budget. by destruct ev. }
  destruct (window_run cfg env D (now st + 10) rest st1 Hpend Hon) as (Hp & Hb & Hn);
    [lia|]. fold st' in Hp, Hb, Hn.
  split_and!.
  - by apply first_event.
  - intros before i after -> Hi.
    apply Forall_app in Hon as [Hbefore Hafter].
    apply Forall_cons in Hafter as [Hion _].
    rewrite count_ticks_app in Hticks.
    destruct (window_run cfg env D (now st + 10) before st1 Hpend Hbefore) as (Hp' & _);
      [lia|].
    apply (event_while_pending cfg env D); [apply Hp'|done..].
  - lia.
  - intros k. pose proof (ticks_budget cfg env D k st') as Hk.
    unfold budget in Hk at 1. lia.
  - apply Hp.
  - assert (Hsplit : 10 - count_ticks rest = S (9 - count_ticks rest)) by lia.
    rewrite Hsplit, ticks_S.
    destruct (window_run cfg env D (now st + 10)
                (replicate (9 - count_ticks rest) Tick) st' Hp
                (on_directory_replicate D _)) as (Hp' & _ & Hn').
    { rewrite count_ticks_replicate. lia. }
    rewrite count_ticks_replicate in Hn'.
    apply (tick_evicts cfg env D (now st + 10)); [exact Hp'|].
    unfold ticks. lia.
Qed.

(** *** The error barrier *)

Lemma obtain_images_eq w mi :
  call_obtain_images w mi = ([ObtainImages mi], obtain_images w mi).
Proof. unfold call_obtain_images. by rewrite bind_emit. Qed.

Lemma scrape_metadata_eq w fi mi :
  call_scrape_metadata w fi mi = ([ScrapeMetadata fi mi], scrape_metadata w fi mi).
Proof. unfold call_scrape_metadata. by rewrite bind_emit. Qed.

Lemma recognize_media_eq w meta :
  call_recognize_media w meta = ([RecognizeMedia meta], recognize_media w meta).
Proof. unfold call_recognize_media. by rewrite bind_emit. Qed.

Lemma stat_mtime_eq w d : stat_mtime w d = ([Stat d], os_result (fs_stat_mtime w d)).
Proof. unfold stat_mtime. by rewrite bind_emit. Qed.





(** *** Identification *)

Lemma identify_by_config_not_listing w d entries :
  Forall not_listing (identify_by_config w d entries).1.
Proof.
  induction entries as [|[base mtype] rest IH]; [apply Forall_ret|].
  cbn [identify_by_config]. effects.
Qed.

Lemma identify_by_config_step w d base mtype rest :
  identify_by_config w d ((base, mtype) :: rest) =
  match mtype with
  | Some t =>
      if is_relative_to d base then
        match recognize_media w (hinted_meta d t) with
        | Ok media_info => ([RecognizeMedia (hinted_meta d t)], Ok (Some (t, media_info)))
        | Raise e =>
            if is_ValueError e
            then (RecognizeMedia (hinted_meta d t) :: (identify_by_config w d rest).1,
                  (identify_by_config w d rest).2)
            else ([RecognizeMedia (hinted_meta d t)], Raise e)
        end
      else identify_by_config w d rest
  | None => identify_by_config w d rest
  end.
Proof.
  cbn [identify_by_config].
  destruct mtype as [t|]; [destruct (is_relative_to d base)|].
  - change (mkMeta (meta_path (MetaInfoPath w d)) (Some t)) with (hinted_meta d t).
    rewrite recognize_media_eq.
    destruct (recognize_media w (hinted_meta d t)) as [mi|e].
    + rewrite bind_ok. cbn [fst snd mret W_ret app]. rewrite try_except_ok.
      by rewrite bind_ok.
    + rewrite bind_raise, try_except_raise.
      destruct (is_ValueError e); cbn [fst snd mret W_ret raise app].
      * by rewrite bind_ok.
      * by rewrite bind_raise.
  - change (try_except _ _)
      with (mret None : W (option (MediaType * option MediaInfo))).
    by rewrite bind_ret_l.
  - destruct (is_relative_to d base);
      change (try_except _ _)
        with (mret None : W (option (MediaType * option MediaInfo)));
      by rewrite bind_ret_l.
Qed.

Lemma identify_first_hint w d entries base t :
  first_match d entries = Some (base, Some t) ->
  (exists rest, (identify_by_config w d entries).1 = RecognizeMedia (hinted_meta d t) :: rest)
  /\ (forall mi, recognize_media w (hinted_meta d t) = Ok mi ->
        identify_by_config w d entries =
        ([RecognizeMedia (hinted_meta d t)], Ok (Some (t, mi)))).
Proof.
  unfold first_match.
  induction entries as [|[b m] rest IH]; [done|].
  cbn [List.find fst]. rewrite identify_by_config_step.
  destruct (is_relative_to d b) eqn:Hrel.
  - intros [= -> ->]. split.
    + destruct (recognize_media w (hinted_meta d t)) as [mi|e]; [by eexists|].
      destruct (is_ValueError e); by eexists.
    + by intros mi ->.
  - intros Hfind. destruct m; by apply IH.
Qed.

Lemma identify_none_all_rejected w d entries t0 :
  identify_by_config w d entries = (t0, Ok None) ->
  forall base t, (base, t) ∈ hinted_matches d entries ->
    exists msg, recognize_media w (hinted_meta d t) = Raise (ValueError msg).
Proof.
  revert t0. induction entries as [|[b m] rest IH]; intros t0 Hnone base t Hin.
  - by apply elem_of_nil in Hin.
  - rewrite identify_by_config_step in Hnone. cbn [hinted_matches] in Hin.
    destruct m as [t'|]; [|by eapply IH].
    destruct (is_relative_to d b); [|by eapply IH].
    destruct (recognize_media w (hinted_meta d t')) as [mi|e] eqn:Hrec; [done|].
    destruct e as [msg|msg|msg]; cbn [is_ValueError] in Hnone; try done.
    apply elem_of_cons in Hin as [[= -> ->]|Hin]; [by eexists|].
    destruct (identify_by_config w d rest) as [t1 r1] eqn:Hrest.
    cbn [fst snd] in Hnone. injection Hnone as _ ->. by eapply IH.
Qed.

Lemma identify_no_hint w d entries :
  hinted_matches d entries = [] -> identify_by_config w d entries = mret None.
Proof.
  induction entries as [|[b m] rest IH]; [done|].
  cbn [hinted_matches]. rewrite identify_by_config_step.
  destruct m as [t|]; [|exact IH]. by destruct (is_relative_to d b).
Qed.

(** C4, as amended.  The hint of the first configured path the directory is
    nested under, when that entry has one, is put to the recogniser first,
    and its answer, when the call returns, is the result: the directory is
    not sampled.  The directory is sampled only when the recogniser call of
    every matching hinted entry raised [ValueError], which the loop swallows
    before moving on; with no matching hinted entry the identification is
    the sampling of one media file.  Absent media info ends
    [_scrape_directory] with one log line: no image fetch, no scrape. *)
Theorem C4_identification cfg w D :
  (forall base t,
     first_match D (_monitor_paths cfg) = Some (base, Some t) ->
     (exists rest, (_identify_media cfg w D).1 = RecognizeMedia (hinted_meta D t) :: rest)
     /\ (forall mi, recognize_media w (hinted_meta D t) = Ok mi ->
           _identify_media cfg w D =
           ([RecognizeMedia (hinted_meta D t)], Ok (Some t, mi))))
  /\ (sampled cfg w D ->
      forall base t, (base, t) ∈ hinted_matches D (_monitor_paths cfg) ->
        exists msg, recognize_media w (hinted_meta D t) = Raise (ValueError msg))
  /\ (hinted_matches D (_monitor_paths cfg) = [] ->
      _identify_media cfg w D = auto_recognize w D)
  /\ (forall t ty,
        _identify_media cfg w D = (t, Ok (ty, None)) ->
        _scrape_directory cfg w D =
          (EnterScrape D :: t ++ [Log WARN ("无法识别媒体信息: " +:+ str D)], Ok tt)).
Proof.
  split_and!.
  - intros base t Hfirst.
    destruct (identify_first_hint w D _ base t Hfirst) as [[rest Hhead] Hok].
    unfold _identify_media. split.
    + destruct (identify_by_config w D (_monitor_paths cfg)) as [t1 [r|e]];
        cbn [fst] in Hhead; subst t1; [|by eexists].
      rewrite bind_ok. by eexists.
    + intros mi Hrec. by rewrite (Hok mi Hrec), bind_ok.
  - unfold sampled, _identify_media. intros Hs base t Hin.
    pose proof (identify_by_config_not_listing w D (_monitor_paths cfg)) as Hnl.
    destruct (identify_by_config w D (_monitor_paths cfg)) as [t1 [[[ty mi]|]|e]] eqn:Hid;
      cbn [fst] in Hnl.
    + rewrite bind_ok in Hs. cbn [fst snd mret W_ret] in Hs. rewrite app_nil_r in Hs.
      rewrite Forall_forall in Hnl. by destruct (Hnl _ Hs).
    + by eapply identify_none_all_rejected.
    + rewrite bind_raise in Hs. cbn [fst] in Hs.
      rewrite Forall_forall in Hnl. by destruct (Hnl _ Hs).
  - intros Hnone. unfold _identify_media.
    by rewrite identify_no_hint, bind_ret_l.
  - intros t ty Hid. unfold _scrape_directory.
    rewrite bind_emit, Hid, bind_ok. unfold log, emit. cbn [fst snd].
    by rewrite try_except_ok.
Qed.


(** *** The theorems at work on a small library *)

Import LibraryScraperExamples.

Lemma C1_debounce_window_witness :
  let st' := run config world_at [Tick; Created heat_file; Tick; Moved heat_file]
               (step config world_at init_state (Created heat_file)) in
  budget heat_dir st' <= budget heat_dir init_state + 1
  /\ str heat_dir ∈ processed_paths st'
  /\ str heat_dir ∉ processed_paths (ticks config world_at 8 st').
Proof.
  destruct (C1_debounce_window config world_at heat_dir init_state
              (Created heat_file) [Tick; Created heat_file; Tick; Moved heat_file])
    as (_ & _ & Hb & _ & Hin & Hout).
  - by exists [].
  - apply not_elem_of_empty.
  - repeat split; [discriminate].
  - repeat constructor.
  - vm_compute. lia.
  - split_and!; [exact Hb|exact Hin|exact Hout].
Defined.

Lemma C2_excluded_directory_never_scraped_witness :
  let d := of_str "/media/temp/incoming" in
  let st := run config world_at
              [Created "/media/temp/incoming/a.mkv"; Tick; Tick;
               Moved "/media/temp/incoming/b.mkv"] init_state in
  scrapes_of d (trace st) = 0 /\ probes_of d (trace st) = 0.
Proof.
  destruct (C2_excluded_directory_never_scraped config world_at
              (of_str "/media/temp/incoming")
              [Created "/media/temp/incoming/a.mkv"; Tick; Tick;
               Moved "/media/temp/incoming/b.mkv"] init_state)
    as (_ & Hs & Hp & _).
  - reflexivity.
  - split; [exact Hs|exact Hp].
Defined.


Lemma C4_identification_witness :
  _identify_media config (world_at 9) heat_dir =
  ([RecognizeMedia (hinted_meta heat_dir MOVIE)], Ok (Some MOVIE, Some heat)).
Proof.
  destruct (C4_identification config (world_at 9) heat_dir) as (Hhint & _).
  destruct (Hhint (of_str "/media/movies") MOVIE eq_refl) as [_ Hok].
  exact (Hok (Some heat) eq_refl).
Defined.

(** With a recogniser that rejects the hinted question, the directory is
    sampled although it lies under a path configured as [movie]. *)
Lemma C4_counterexample :
  ~ identification_as_claimed config picky_world heat_dir.
Proof.
  intros (_ & Honly & _).
  assert (Hs : sampled config picky_world heat_dir).
  { unfold sampled.
    assert (Ht : (_identify_media config picky_world heat_dir).1 =
      [RecognizeMedia (hinted_meta heat_dir MOVIE); IterDir heat_dir;
       RecognizeMedia (mkMeta (of_str "/media/movies/Heat/Heat.mkv") None)])
      by reflexivity.
    rewrite Ht. apply list_elem_of_further, list_elem_of_here. }
  specialize (Honly Hs). discriminate Honly.
Qed.



End LibraryScraperProofs.

(** ** The subscription reminder *)

Module SubscribeReminderProofs.

Import Py Eff SubscribeReminder.

(** *** The episode field *)

Lemma last_snoc_cons (first last : nat) (middle : list nat) :
  List.last (first :: middle ++ [last]) 0 = last.
Proof.
  change (first :: middle ++ [last]) with ((first :: middle) ++ [last]).
  apply List.last_last.
Qed.

Lemma episode_field_range first middle last :
  episode_field (first :: middle ++ [last]) =
  "E" +:+ two_digits first +:+ "-E" +:+ two_digits last.
Proof.
  unfold episode_field. rewrite last_snoc_cons.
  assert (Hlen : Nat.ltb 1 (length (first :: middle ++ [last])) = true).
  { apply Nat.ltb_lt. rewrite length_cons, length_app. simpl. lia. }
  by rewrite Hlen.
Qed.

Lemma episode_field_single n : episode_field [n] = "E" +:+ two_digits n.
Proof. reflexivity. Qed.

(** A show with a known id and season of which episodes air on [date]
    contributes one entry, after the entries collected so far. *)
Lemma visit_tv h date tv mv subscribe tmdbid season e0 es :
  sub_type subscribe = "电视剧" ->
  sub_tmdbid subscribe = Some (S tmdbid) ->
  sub_season subscribe = Some (S season) ->
  aired_on date (tmdb_episodes h (S tmdbid) (S season)) = e0 :: es ->
  visit h date (tv, mv) subscribe =
  ([TmdbEpisodes (S tmdbid) (S season)],
   Ok (tv ++ [mkTvEntry (display_name subscribe) ("S" +:+ two_digits (S season))
                        (episode_field (e0 :: es))],
       mv)).
Proof.
  intros Htype Hid Hseason Haired. unfold visit.
  rewrite Htype, Hid, Hseason, String.eqb_refl.
  cbn [nonzero negb orb default from_option id]. rewrite bind_emit.
  destruct (tmdb_episodes h (S tmdbid) (S season)) as [|x xs] eqn:Hinfo; [done|].
  by rewrite Haired.
Qed.

(** C9. When more than one episode of a show airs today, the episode field
    of its entry is "E<first>-E<last>", from the first and the last number
    collected, whatever lies between: for the numbers 3 and 5 it reads
    "E03-E05", although episode 4 does not air. *)
Theorem C9_episode_field_spans_first_to_last h date tv mv subscribe tmdbid season
    first middle last :
  sub_type subscribe = "电视剧" ->
  sub_tmdbid subscribe = Some (S tmdbid) ->
  sub_season subscribe = Some (S season) ->
  aired_on date (tmdb_episodes h (S tmdbid) (S season)) = first :: middle ++ [last] ->
  visit h date (tv, mv) subscribe =
    ([TmdbEpisodes (S tmdbid) (S season)],
     Ok (tv ++ [mkTvEntry (display_name subscribe) ("S" +:+ two_digits (S season))
                          ("E" +:+ two_digits first +:+ "-E" +:+ two_digits last)],
         mv))
  /\ episode_field [3; 5] = "E03-E05".
Proof.
  intros Htype Hid Hseason Haired. split; [|reflexivity].
  rewrite (visit_tv h date tv mv subscribe tmdbid season first (middle ++ [last]))
    by done.
  by rewrite episode_field_range.
Qed.

(** *** Collecting today's entries *)

Lemma visit_shape h date acc subscribe :
  exists t r, visit h date acc subscribe = (t, Ok r) /\ Forall is_lookup t.
Proof.
  unfold visit. destruct acc as [tv mv].
  destruct (String.eqb (sub_type subscribe) "电视剧").
  - destruct (negb (nonzero (sub_tmdbid subscribe)) || negb (nonzero (sub_season subscribe))).
    { eexists _, _. split; [reflexivity|constructor]. }
    rewrite bind_emit.
    destruct (tmdb_episodes h _ _); [|destruct (aired_on date _)];
      eexists _, _; (split; [reflexivity|by repeat constructor]).
  - destruct (negb (nonzero (sub_tmdbid subscribe))).
    { eexists _, _. split; [reflexivity|constructor]. }
    rewrite bind_emit.
    destruct (recognize_movie h _) as [mi|]; [destruct (String.eqb _ date)|];
      eexists _, _; (split; [reflexivity|by repeat constructor]).
Qed.

Lemma collect_shape h date subscribes acc :
  exists t r, collect h date acc subscribes = (t, Ok r) /\ Forall is_lookup t.
Proof.
  revert acc. induction subscribes as [|subscribe rest IH]; intros acc.
  - eexists _, _. split; [reflexivity|constructor].
  - cbn [collect]. destruct (visit_shape h date acc subscribe) as (t1 & r1 & -> & H1).
    rewrite bind_ok. destruct (IH r1) as (t2 & r2 & -> & H2).
    eexists _, _. split; [reflexivity|]. by apply Forall_app.
Qed.

Lemma lookups_post_nothing t : Forall is_lookup t -> posts t = [].
Proof.
  induction 1 as [|e t He _ IH]; [reflexivity|].
  unfold posts in *. simpl. by destruct e.
Qed.

(** The method with the body its [def] has never calls the sender. *)
Lemma shipped_never_posts h : posts (__send_notify h).1 = [].
Proof.
  unfold __send_notify. destruct (subscribe_list h) as [|s l]; [reflexivity|].
  destruct (collect_shape h (current_date h) (s :: l) ([], [])) as (t & r & -> & Ht).
  rewrite bind_ok. cbn [fst snd mret W_ret]. rewrite app_nil_r.
  by apply lookups_post_nothing.
Qed.

(** *** The digest, read as the tail of the method *)

Lemma append_nonempty (a b : string) : b <> "" -> a +:+ b <> "".
Proof. intros Hb. destruct a; [exact Hb|discriminate]. Qed.

Lemma foldl_keeps_text {A} (block : A -> string) (l : list A) (text : string) :
  text <> "" -> foldl (fun text sub => text +:+ block sub) text l <> "".
Proof.
  revert text. induction l as [|x l IH]; intros text Ht; [exact Ht|].
  cbn [foldl]. apply IH. by destruct text.
Qed.

Lemma digest_text_empty tv mv : digest_text tv mv = "" <-> tv = [] /\ mv = [].
Proof.
  unfold digest_text. split.
  - intros H. destruct tv as [|x tv].
    + split; [reflexivity|]. destruct mv as [|y mv]; [reflexivity|].
      exfalso. revert H. cbn [foldl]. by apply foldl_keeps_text.
    + exfalso. revert H. cbn [foldl]. apply foldl_keeps_text, foldl_keeps_text.
      discriminate.
  - by intros [-> ->].
Qed.

(** Read as the tail of the method, the block sends the digest exactly when
    its text is not empty, under a title that starts with today's date. *)
Lemma intended_sends_iff_nonempty h t tv mv :
  subscribe_list h <> [] ->
  collect h (current_date h) ([], []) (subscribe_list h) = (t, Ok (tv, mv)) ->
  send_notify_intended h =
  (t ++ (if String.eqb (digest_text tv mv) "" then []
         else [PostMessage (current_date h +:+ "订阅提醒") (digest_text tv mv)
                           "https://115.com/web_icon.jpg"]),
   Ok tt).
Proof.
  intros Hne Hc. unfold send_notify_intended.
  destruct (subscribe_list h) as [|s l] eqn:Hl; [done|].
  rewrite Hc, bind_ok. unfold digest_block.
  by destruct (String.eqb (digest_text tv mv) "").
Qed.

(** *** [init_plugin] *)

Lemma stop_service_returns self :
  exists t self', stop_service self = (t, Ok self').
Proof.
  unfold stop_service. destruct (_scheduler self) as [[js r]|]; [|by eexists _, _].
  destruct r; cbn [running]; [rewrite bind_emit|rewrite bind_ret_l]; by eexists _, _.
Qed.



Lemma init_plugin_returns h self config :
  exists t self', init_plugin h self config = (t, Ok self').
Proof.
  unfold init_plugin.
  destruct (stop_service_returns self) as (t0 & self0 & ->). rewrite bind_ok.
  destruct config as [c|]; [|by eexists _, _].
  destruct (cfg_enabled c || cfg_onlyonce c); [|by eexists _, _].
  destruct (truthy (cfg_time c) && isdigit (py_str (cfg_time c)));
    [destruct (from_crontab h (cron_of (cfg_time c)))|];
    destruct (cfg_onlyonce c);
    cbv [mbind W_bind mret W_ret emit logger try_except raise lift fst snd];
    by eexists _, _.
Qed.

(** *** The theorems at work on two subscriptions *)

Import SubscribeReminderExamples.


Lemma C9_episode_field_spans_first_to_last_witness :
  visit (tv_host gap) "2025-01-17" ([], []) severance =
  ([TmdbEpisodes 953 2], Ok ([mkTvEntry "Severance (2022)" "S02" "E03-E05"], [])).
Proof.
  exact (proj1 (C9_episode_field_spans_first_to_last (tv_host gap) "2025-01-17"
                  [] [] severance 952 1 3 [] 5 eq_refl eq_refl eq_refl eq_refl)).
Defined.

(** C6, at a show whose episodes 3, 4 and 5 air today.  The entry collected
    for it has the episode field "E03-E05" (and "E07" for a single episode
    7), and the statements of lines 156-159 would turn it into one block of
    the digest; but the method, with the body its [def] has, ends after the
    collection and sends nothing: line 150 starts at a column that matches
    no open block, and the statements from line 156 on start at column 0. *)
Theorem C6_tv_block_is_built_but_not_sent :
  (collect (tv_host run_of_three) "2025-01-17" ([], []) [severance]).2 =
    Ok ([mkTvEntry "Severance (2022)" "S02" "E03-E05"], [])
  /\ episode_field [7] = "E07"
  /\ digest_text [mkTvEntry "Severance (2022)" "S02" "E03-E05"] [] =
     "📺 Severance (2022)
   S02季 E03-E05集

"
  /\ __send_notify (tv_host run_of_three) = ([TmdbEpisodes 953 2], Ok tt)
  /\ SourceLayout.first_bad_line SourceLayout.class_body SourceLayout.send_notify_lines
     = Some 150.
Proof. split_and!; reflexivity. Qed.

(** C7, at a film released today.  The digest text built from the collected
    lists is not empty, and read as the tail of the method the block would
    hand it to the sender under the title "2025-01-17订阅提醒"; the method
    with the body its [def] has performs the lookup and returns, and for no
    host at all does it call the sender. *)
Theorem C7_digest_is_never_sent :
  (collect movie_host "2025-01-17" ([], []) [heat_1995]).2 =
    Ok ([], [mkMovieEntry "Heat (1995)"])
  /\ digest_text [] [mkMovieEntry "Heat (1995)"] <> ""
  /\ send_notify_intended movie_host =
     ([RecognizeMovie 949;
       PostMessage "2025-01-17订阅提醒" "🎬 Heat (1995)

" image], Ok tt)
  /\ __send_notify movie_host = ([RecognizeMovie 949], Ok tt)
  /\ (forall h, posts (__send_notify h).1 = []).
Proof.
  split_and!; [reflexivity|discriminate|reflexivity|reflexivity|].
  apply shipped_never_posts.
Qed.

End SubscribeReminderProofs.

(** ** More on the library scraper *)

Module LibraryScraperExtras.

Import Py Eff LibraryScraper ScraperNotions LibraryScraperProofs LibraryScraperExamples.

(** *** Events that are dropped *)

Lemma dropped_event_step cfg env st i :
  dropped_event (env (now st)) i -> step cfg env st i = st.
Proof.
  assert (H : forall path_str,
    path_str = "" \/ fs_is_dir (env (now st)) (of_str path_str) = true
    \/ is_media (env (now st)) (of_str path_str) = false ->
    (let '(pp, out) :=
       _handle_event cfg (env (now st)) path_str (processed_paths st) in
     commit st pp out) = st).
  { intros path_str Hd. unfold _handle_event.
    destruct Hd as [->|[Hd|Hm]]; [apply commit_nothing| |].
    - rewrite Hd. destruct (String.eqb path_str ""); apply commit_nothing.
    - rewrite Hm, orb_true_r. destruct (String.eqb path_str ""); apply commit_nothing. }
  destruct i as [|p|p]; [done|apply H..].
Qed.

(** X1. Events without a path, on directories, or on files whose suffix,
    lowercased, is not a media suffix are dropped: however many arrive, the
    handler's set, the timers and the trace stay as they were. *)
Theorem dropped_events_change_nothing cfg env st inputs :
  Forall (dropped_event (env (now st))) inputs ->
  run cfg env inputs st = st.
Proof.
  induction 1 as [|i inputs Hi _ IH]; [reflexivity|].
  unfold run in *. cbn [foldl]. by rewrite dropped_event_step.
Qed.

Lemma dropped_events_change_nothing_witness :
  run config world_at
    [Created "/media/movies/Heat"; Moved "/media/movies/Heat/poster.jpg"; Created ""]
    init_state = init_state.
Proof.
  apply dropped_events_change_nothing.
  apply Forall_cons_2; [right; left; reflexivity|].
  apply Forall_cons_2; [right; right; reflexivity|].
  apply Forall_cons_2; [left; reflexivity|apply Forall_nil_2].
Defined.

(** *** The readiness probe, in full *)

Lemma probe_files_ok w files :
  (forall f, f ∈ probed w files -> fs_open_rb w f = None) ->
  probe_files w files = (OpenFile <$> probed w files, Ok tt).
Proof.
  unfold probed. induction files as [|g files IH]; intros Hall; [reflexivity|].
  cbn [probe_files List.filter].
  destruct (fs_is_file w g && is_media w g) eqn:Hg.
  - rewrite open_rb_eq, (Hall g)
      by (cbn [List.filter]; rewrite Hg; apply list_elem_of_here).
    rewrite bind_ok, IH; [reflexivity|].
    intros f Hf. apply Hall. cbn [List.filter]. rewrite Hg.
    by apply list_elem_of_further.
  - rewrite bind_ret_l. apply IH. intros f Hf. apply Hall.
    cbn [List.filter]. by rewrite Hg.
Qed.

Lemma probed_spec w files f :
  f ∈ probed w files <-> f ∈ files /\ fs_is_file w f = true /\ is_media w f = true.
Proof.
  unfold probed. rewrite !list_elem_of_In, List.filter_In, andb_true_iff. tauto.
Qed.

Lemma probe_files_opens_probed w files f :
  OpenFile f ∈ (probe_files w files).1 -> f ∈ probed w files.
Proof.
  unfold probed. induction files as [|g files IH]; cbn [probe_files List.filter].
  - intros H. by apply elem_of_nil in H.
  - destruct (fs_is_file w g && is_media w g) eqn:Hg.
    + rewrite open_rb_eq. destruct (fs_open_rb w g).
      * rewrite bind_raise. cbn [fst]. intros [= ->]%list_elem_of_singleton.
        apply list_elem_of_here.
      * rewrite bind_ok. cbn [fst app].
        intros [[= ->]|H]%elem_of_cons; [apply list_elem_of_here|].
        apply list_elem_of_further. by apply IH.
    + rewrite bind_ret_l. apply IH.
Qed.

(** X2. The probe answers "ready" exactly when the directory can be listed
    and every regular file in it with a media suffix can be opened; files
    of other kinds are never opened, and an empty directory is ready. *)
Theorem files_ready_iff w D :
  (files_ready w D = true <->
   exists files, fs_iterdir w D = inr files
     /\ forall f, f ∈ files -> fs_is_file w f = true -> is_media w f = true ->
          fs_open_rb w f = None)
  /\ (forall f, OpenFile f ∈ (_check_files_ready w D).1 ->
        fs_is_file w f = true /\ is_media w f = true).
Proof.
  split.
  - split.
    + intros Hready. destruct (fs_iterdir w D) as [msg|files] eqn:Hdir.
      { exfalso. revert Hready. unfold files_ready, _check_files_ready.
        rewrite iterdir_eq, Hdir. cbn [os_result]. by rewrite bind_raise. }
      exists files. split; [reflexivity|]. intros f Hin Hfile Hmedia.
      destruct (fs_open_rb w f) as [msg|] eqn:Hopen; [|reflexivity].
      by rewrite (unreadable_not_ready w D files f msg) in Hready.
    + intros (files & Hdir & Hall). unfold files_ready, _check_files_ready.
      rewrite iterdir_eq, Hdir. cbn [os_result]. rewrite bind_ok.
      rewrite probe_files_ok; [by rewrite bind_ok|].
      intros f (Hin & Hfile & Hmedia)%probed_spec. by apply Hall.
  - intros f. unfold _check_files_ready. rewrite iterdir_eq.
    destruct (fs_iterdir w D) as [msg|files]; cbn [os_result].
    + rewrite bind_raise, try_except_raise. cbn [is_IOError fst snd mret W_ret app].
      intros H. apply list_elem_of_singleton in H. discriminate.
    + rewrite bind_ok. cbn [fst snd].
      destruct (probe_files w files) as [t [[]|e]] eqn:Hp.
      * rewrite bind_ok. cbn [fst snd mret W_ret app try_except].
        rewrite app_nil_r. intros [[=]|H]%elem_of_cons.
        assert (Hin : OpenFile f ∈ (probe_files w files).1) by by rewrite Hp.
        apply probe_files_opens_probed, probed_spec in Hin. tauto.
      * rewrite bind_raise. cbn [fst snd]. rewrite try_except_raise. cbn [fst snd app].
        intros [[=]|[H|H]%elem_of_app]%elem_of_cons.
        -- assert (Hin : OpenFile f ∈ (probe_files w files).1) by by rewrite Hp.
           apply probe_files_opens_probed, probed_spec in Hin. tauto.
        -- exfalso. revert H. destruct (is_IOError e).
           ++ intros H. by apply elem_of_nil in H.
           ++ unfold log. rewrite bind_emit. cbn [fst mret W_ret].
              intros H. apply list_elem_of_singleton in H. discriminate.
Qed.

Lemma files_ready_iff_witness :
  files_ready (world_at 9) heat_dir = true
  /\ files_ready (world_at 9) (of_str "/media/empty") = true.
Proof.
  split.
  - apply (proj1 (files_ready_iff (world_at 9) heat_dir)).
    eexists. split; [reflexivity|]. intros f _ _ _. reflexivity.
  - apply (proj1 (files_ready_iff (world_at 9) (of_str "/media/empty"))).
    exists []. split; [reflexivity|]. intros f Hin. by apply elem_of_nil in Hin.
Defined.

(** *** A directory without media files *)

Lemma probed_nil w files :
  (forall f, f ∈ files -> is_media w f = false) -> probed w files = [].
Proof.
  unfold probed. induction files as [|g files IH]; intros Hall; [reflexivity|].
  cbn [List.filter]. rewrite (Hall g), andb_false_r by apply list_elem_of_here.
  apply IH. intros f Hf. apply Hall. by apply list_elem_of_further.
Qed.

Lemma find_media_none w files :
  (forall f, f ∈ files -> is_media w f = false) -> List.find (is_media w) files = None.
Proof.
  induction files as [|g files IH]; intros Hall; [reflexivity|].
  cbn [List.find]. rewrite (Hall g) by apply list_elem_of_here.
  apply IH. intros f Hf. apply Hall. by apply list_elem_of_further.
Qed.

(** X3. When the directory of an event holds no file with a media suffix
    any more and no configured hint applies, the directory counts as ready,
    cannot be identified, and the call ends with the warning: the directory
    is listed twice, the recogniser and the scraper are not called, and
    nothing is retried. *)
Theorem directory_without_media_is_given_up cfg w D files :
  _is_excluded cfg D = false ->
  hinted_matches D (_monitor_paths cfg) = [] ->
  fs_iterdir w D = inr files ->
  (forall f, f ∈ files -> is_media w f = false) ->
  handle_media_directory cfg w D =
  ([IterDir D; EnterScrape D; IterDir D;
    Log WARN ("无法识别媒体信息: " +:+ str D)], Ok tt).
Proof.
  intros Hex Hhint Hdir Hnone.
  assert (Hcheck : _check_files_ready w D = ([IterDir D], Ok true)).
  { unfold _check_files_ready. rewrite iterdir_eq, Hdir. cbn [os_result].
    rewrite bind_ok, probe_files_ok, (probed_nil _ _ Hnone).
    - by rewrite bind_ok.
    - rewrite (probed_nil _ _ Hnone). intros f Hf. by apply elem_of_nil in Hf. }
  assert (Hid : _identify_media cfg w D = ([IterDir D], Ok (None, None))).
  { unfold _identify_media. rewrite identify_no_hint, bind_ret_l by done.
    unfold auto_recognize. rewrite iterdir_eq, Hdir. cbn [os_result].
    by rewrite bind_ok, (find_media_none _ _ Hnone). }
  unfold handle_media_directory. rewrite Hex, Hcheck, bind_ok. cbn [negb fst snd].
  unfold _scrape_directory. rewrite bind_emit, Hid, bind_ok. unfold log, emit.
  cbn [fst snd]. by rewrite try_except_ok.
Qed.

Lemma directory_without_media_is_given_up_witness :
  handle_media_directory config (world_at 0) (of_str "/media/tv/Lost") =
  ([IterDir (of_str "/media/tv/Lost"); EnterScrape (of_str "/media/tv/Lost");
    IterDir (of_str "/media/tv/Lost"); Log WARN "无法识别媒体信息: /media/tv/Lost"],
   Ok tt).
Proof.
  apply (directory_without_media_is_given_up config (world_at 0)
           (of_str "/media/tv/Lost") []); [reflexivity..|].
  intros f Hf. by apply elem_of_nil in Hf.
Defined.

(** *** The scrape when all goes well, and when the directory is gone *)

(** X4. Once the media is identified and the images are fetched, the
    metadata scrape is called for a file item of storage "local" and type
    "dir" whose path is the directory's with a closing slash, and the success
    is logged; when the directory cannot be stat'ed any more, the metadata
    scrape is not called and the error is logged. *)
Theorem scrape_after_identification cfg w D t ty mi :
  _identify_media cfg w D = (t, Ok (ty, Some mi)) ->
  obtain_images w mi = Ok tt ->
  (forall mtime,
     fs_stat_mtime w D = inr mtime ->
     scrape_metadata w (file_item D mtime) mi = Ok tt ->
     _scrape_directory cfg w D =
       (EnterScrape D :: t ++
          [ObtainImages mi; Stat D;
           ScrapeMetadata
             (mkFileItem "local" "dir" (replace_char "\" "/" (str D) +:+ "/")
                         (name D) (stem D) mtime) mi;
           Log INFO ("刮削完成: " +:+ str D)],
        Ok tt))
  /\ (forall msg,
        fs_stat_mtime w D = inl msg ->
        _scrape_directory cfg w D =
          (EnterScrape D :: t ++
             [ObtainImages mi; Stat D; Log ERROR ("刮削失败: " +:+ msg)],
           Ok tt)).
Proof.
  intros Hid Himg. split.
  - intros mtime Hstat Hscrape. unfold _scrape_directory.
    rewrite bind_emit, Hid, bind_ok. cbn [fst snd].
    rewrite obtain_images_eq, Himg, bind_ok. cbn [fst snd].
    rewrite stat_mtime_eq, Hstat. cbn [os_result]. rewrite bind_ok. cbn [fst snd].
    rewrite scrape_metadata_eq, Hscrape, bind_ok. unfold log, emit. cbn [fst snd app].
    rewrite try_except_ok. by rewrite <- ?app_assoc.
  - intros msg Hstat. unfold _scrape_directory.
    rewrite bind_emit, Hid, bind_ok. cbn [fst snd].
    rewrite obtain_images_eq, Himg, bind_ok. cbn [fst snd].
    rewrite stat_mtime_eq, Hstat. cbn [os_result]. rewrite bind_raise. cbn [fst snd app].
    rewrite try_except_raise. unfold log, emit. cbn [fst snd exn_str].
    by rewrite <- ?app_assoc.
Qed.

Lemma scrape_after_identification_witness :
  _scrape_directory config (world_at 9) heat_dir =
  ([EnterScrape heat_dir; RecognizeMedia (hinted_meta heat_dir MOVIE);
    ObtainImages heat; Stat heat_dir;
    ScrapeMetadata (mkFileItem "local" "dir" "/media/movies/Heat/" "Heat" "Heat" 1700) heat;
    Log INFO "刮削完成: /media/movies/Heat"], Ok tt).
Proof.
  exact (proj1 (scrape_after_identification config (world_at 9) heat_dir
                  [RecognizeMedia (hinted_meta heat_dir MOVIE)] (Some MOVIE) heat
                  eq_refl eq_refl) 1700 eq_refl eq_refl).
Defined.

(** *** Exclusion *)

Lemma is_prefix_refl xs : is_prefix xs xs = true.
Proof. induction xs as [|x xs IH]; [reflexivity|]. simpl. by rewrite String.eqb_refl. Qed.

Lemma is_prefix_trans xs ys zs :
  is_prefix xs ys = true -> is_prefix ys zs = true -> is_prefix xs zs = true.
Proof.
  revert ys zs. induction xs as [|x xs IH]; intros ys zs; [done|].
  destruct ys as [|y ys]; [done|]. destruct zs as [|z zs]; [done|].
  cbn [is_prefix]. rewrite !andb_true_iff, !String.eqb_eq.
  intros [-> H1] [-> H2]. split; [reflexivity|]. by eapply IH.
Qed.

Lemma is_relative_to_refl p : is_relative_to p p = true.
Proof. unfold is_relative_to. by rewrite String.eqb_refl, is_prefix_refl. Qed.

Lemma is_relative_to_trans a b c :
  is_relative_to a b = true -> is_relative_to b c = true -> is_relative_to a c = true.
Proof.
  unfold is_relative_to. rewrite !andb_true_iff, !String.eqb_eq.
  intros [Hab Pab] [Hbc Pbc]. split; [congruence|]. by eapply is_prefix_trans.
Qed.

Lemma is_excluded_iff cfg p :
  _is_excluded cfg p = true <->
  exists excl, excl ∈ _exclude_paths cfg /\ is_relative_to p excl = true.
Proof.
  unfold _is_excluded. induction (_exclude_paths cfg) as [|e l IH]; cbn [is_excluded_loop].
  - split; [done|]. intros (excl & Hin & _). by apply elem_of_nil in Hin.
  - destruct (is_relative_to p e) eqn:He.
    + split; [|done]. intros _. exists e. split; [apply list_elem_of_here|done].
    + rewrite IH. split.
      * intros (excl & Hin & Hrel). exists excl. split; [by apply list_elem_of_further|done].
      * intros (excl & [->|Hin]%elem_of_cons & Hrel); [congruence|by exists excl].
Qed.

(** X5. Exclusion is inherited: every directory under an excluded
    directory, at any depth, is excluded too, and an excluded path excludes
    itself. *)
Theorem exclusion_is_inherited cfg d d' :
  _is_excluded cfg d = true ->
  is_relative_to d' d = true ->
  _is_excluded cfg d' = true.
Proof.
  rewrite !is_excluded_iff. intros (excl & Hin & Hrel) Hunder.
  exists excl. split; [done|]. by eapply is_relative_to_trans.
Qed.

Lemma exclusion_is_inherited_witness :
  _is_excluded config (of_str "/media/temp/a/b/c") = true.
Proof.
  exact (exclusion_is_inherited config (of_str "/media/temp/a") (of_str "/media/temp/a/b/c")
           eq_refl eq_refl).
Defined.



(** *** The monitored paths *)







(** *** The window closes and opens again *)




(** *** What every reachable state satisfies *)

Lemma outs_spawn_retries cfg w t tasks :
  Forall (fun x => x.1 = t + 2 /\ delay_of x.2 = 2)
         (spawned t (tasks ≫= task_out cfg w)).
Proof.
  induction tasks as [|task tasks IH]; [constructor|].
  rewrite bind_cons, spawned_app. apply Forall_app. split; [|exact IH].
  destruct task as [s|d]; [constructor|]. cbn [task_out].
  rewrite handle_spawned. case_if; by repeat constructor.
Qed.

Lemma step_in_range cfg env st i :
  timers_in_range st -> timers_in_range (step cfg env st i).
Proof.
  unfold timers_in_range. intros Hinv.
  assert (Hev : forall path_str,
    let st' := (let '(pp, out) :=
                  _handle_event cfg (env (now st)) path_str (processed_paths st) in
                commit st pp out) in
    Forall (fun x => now st' < x.1 /\ x.1 <= now st' + delay_of x.2) (timers st')).
  { intros path_str.
    destruct (step_event_cases cfg env st path_str) as [->|[_ ->]]; [done|].
    unfold commit. cbn [timers now fst].
    apply Forall_app. split; [done|].
    change (BackgroundTask 10 (Discard (str (parent (of_str path_str)))) ::
              (handle_media_directory cfg (env (now st)) (parent (of_str path_str))).1)
      with ([BackgroundTask 10 (Discard (str (parent (of_str path_str))))] ++
              (handle_media_directory cfg (env (now st)) (parent (of_str path_str))).1).
    rewrite spawned_app, handle_spawned. apply Forall_app. split.
    - repeat constructor; cbn; lia.
    - case_if; repeat constructor; cbn; lia. }
  destruct i as [|p|p]; [|apply Hev..].
  cbn [step]. rewrite tick_eq. cbn zeta. cbn [timers now].
  apply Forall_app. split.
  - rewrite Forall_forall in Hinv. apply Forall_forall. intros x Hx.
    apply list_elem_of_In, List.filter_In in Hx as [Hx Hdue].
    apply list_elem_of_In, Hinv in Hx. unfold is_due in Hdue.
    apply negb_true_iff, Nat.leb_gt in Hdue. lia.
  - eapply Forall_impl; [apply outs_spawn_retries|]. cbn. intros x [-> ->]. lia.
Qed.

Lemma step_members_have_eviction cfg env st i :
  (forall s, s ∈ processed_paths st -> discard_dues s (timers st) <> []) ->
  forall s, s ∈ processed_paths (step cfg env st i) ->
    discard_dues s (timers (step cfg env st i)) <> [].
Proof.
  intros Hinv.
  assert (Hev : forall path_str,
    let st' := (let '(pp, out) :=
                  _handle_event cfg (env (now st)) path_str (processed_paths st) in
                commit st pp out) in
    forall s, s ∈ processed_paths st' -> discard_dues s (timers st') <> []).
  { intros path_str.
    destruct (step_event_cases cfg env st path_str) as [->|[_ ->]]; [done|].
    set (d := parent (of_str path_str)). unfold commit.
    cbn [timers processed_paths fst]. intros s Hs.
    rewrite discard_dues_app.
    destruct (decide (s = str d)) as [->|Hne].
    - unfold discard_dues at 2. cbn [spawned omap list_omap snd fst].
      rewrite bool_decide_eq_true_2 by done.
      intros [_ H]%app_eq_nil. discriminate H.
    - intros [H _]%app_eq_nil. apply (Hinv s); [set_solver|done]. }
  destruct i as [|p|p]; [|apply Hev..].
  cbn [step]. intros s [Hin Hnone]%elem_of_tick.
  rewrite tick_discards.
  pose proof (List.filter_length (fun d => Nat.leb d (S (now st)))
                (discard_dues s (timers st))) as Hpart.
  rewrite Hnone in Hpart. cbn [length] in Hpart.
  intros Hnil. rewrite Hnil in Hpart. cbn [length] in Hpart.
  apply (Hinv s Hin). by apply length_zero_iff_nil.
Qed.

(** X10. In every state the plugin reaches, the handler's set and the timer
    queue agree: each directory in the set has exactly one eviction queued
    and each directory outside it has none; and no task is overdue or
    further away than its delay: an eviction falls due within ten units, a
    retry within two. *)
Theorem reachable_states_are_well_formed cfg env st :
  reachable cfg env st ->
  evictions_match st /\ timers_in_range st.
Proof.
  intros [inputs ->].
  assert (H : forall st0,
    (evictions_consistent st0
     /\ (forall s, s ∈ processed_paths st0 -> discard_dues s (timers st0) <> [])
     /\ timers_in_range st0) ->
    evictions_consistent (run cfg env inputs st0)
    /\ (forall s, s ∈ processed_paths (run cfg env inputs st0) ->
          discard_dues s (timers (run cfg env inputs st0)) <> [])
    /\ timers_in_range (run cfg env inputs st0)).
  { induction inputs as [|i inputs IH]; intros st0 Hst0; [done|].
    unfold run in *. cbn [foldl]. apply IH. destruct Hst0 as (H1 & H2 & H3).
    split_and!; [by apply step_consistent|by apply step_members_have_eviction|
                 by apply step_in_range]. }
  destruct (H init_state) as (Hc & Hm & Hr).
  { split_and!; [intros s; split; [simpl; lia|done]| |constructor].
    intros s Hs. by apply not_elem_of_empty in Hs. }
  split; [|exact Hr]. intros s. destruct (Hc s) as [Hle Hout].
  destruct (decide (s ∈ processed_paths (run cfg env inputs init_state))) as [Hin|Hnot].
  - specialize (Hm s Hin).
    destruct (discard_dues s (timers (run cfg env inputs init_state))) as [|x l];
      [done|]. cbn [length] in *. lia.
  - by rewrite (Hout Hnot).
Qed.

Lemma reachable_states_are_well_formed_witness :
  let st := run config world_at [Created heat_file; Tick; Tick; Tick] init_state in
  evictions_match st /\ timers_in_range st.
Proof.
  apply (reachable_states_are_well_formed config world_at).
  by exists [Created heat_file; Tick; Tick; Tick].
Defined.

(** *** A directory that never becomes ready *)

Lemma unlistable_not_ready w D msg :
  fs_iterdir w D = inl msg -> _check_files_ready w D = ([IterDir D], Ok false).
Proof.
  intros Hdir. unfold _check_files_ready. rewrite iterdir_eq, Hdir. cbn [os_result].
  by rewrite bind_raise, try_except_raise.
Qed.

Section NeverReady.

Variable cfg : Config.
Variable env : nat -> World.
Variable D : Path.
Hypothesis not_excluded : _is_excluded cfg D = false.

Variable st : State.
Hypothesis no_chain : retry_dues D (timers st) = [].
Hypothesis never : forall t, now st <= t -> files_ready (env t) D = false.

Lemma polling_never_ends m :
  let st' := ticks cfg env m
               (commit st (processed_paths st)
                  (handle_media_directory cfg (env (now st)) D)) in
  scrapes_of D (trace st') = scrapes_of D (trace st)
  /\ retry_dues D (timers st') = [now st + 2 * (m / 2) + 2].
Proof.
  induction m as [|m [IHs IHr]].
  - unfold ticks, run, commit. cbn [replicate foldl trace timers fst].
    rewrite scrapes_app, retry_dues_app, no_chain, handle_scrapes, handle_spawned.
    rewrite not_excluded, never by lia. rewrite andb_false_r.
    cbn [negb andb app]. unfold retry_dues. cbn [omap list_omap snd fst].
    rewrite bool_decide_eq_true_2 by done. split; [lia|]. simpl. f_equal. lia.
  - cbn zeta in *. rewrite ticks_S.
    match goal with |- context [ticks cfg env m ?s] => set (st1 := s) in * end.
    pose proof (now_ticks cfg env m st1) as Hnow.
    change (now st1) with (now st) in Hnow.
    rewrite tick_scrapes, tick_retries, IHs, IHr, Hnow, not_excluded.
    rewrite never by lia. cbn [negb andb List.filter].
    destruct (Nat.Even_or_Odd m) as [[i ->]|[i ->]].
    + rewrite half_even.
      assert (Hnd : Nat.leb (now st + 2 * i + 2) (S (now st + 2 * i)) = false)
        by (apply Nat.leb_gt; lia).
      rewrite Hnd. cbn [negb length replicate List.filter app].
      replace (S (2 * i)) with (2 * i + 1) by lia. rewrite half_odd.
      split; [lia|reflexivity].
    + rewrite half_odd.
      assert (Hd : Nat.leb (now st + 2 * i + 2) (S (now st + (2 * i + 1))) = true)
        by (apply Nat.leb_le; lia).
      rewrite Hd. cbn [negb length replicate List.filter app].
      replace (S (2 * i + 1)) with (2 * (i + 1)) by lia. rewrite half_even.
      split; [lia|]. f_equal. lia.
Qed.

End NeverReady.

(** X11. A directory that is not excluded and can no longer be listed, for
    instance because it was deleted, is polled for ever: the failed listing
    is not logged as an error, no scrape is ever entered, and at every
    instant exactly one retry is pending, two units after the last. *)
Theorem unlistable_directory_is_polled_for_ever cfg env D st :
  _is_excluded cfg D = false ->
  retry_dues D (timers st) = [] ->
  (forall t, now st <= t -> exists msg, fs_iterdir (env t) D = inl msg) ->
  (forall t, now st <= t -> _check_files_ready (env t) D = ([IterDir D], Ok false))
  /\ forall m,
       let st' := ticks cfg env m
                    (commit st (processed_paths st)
                       (handle_media_directory cfg (env (now st)) D)) in
       scrapes_of D (trace st') = scrapes_of D (trace st)
       /\ retry_dues D (timers st') = [now st + 2 * (m / 2) + 2].
Proof.
  intros Hex Hchain Hgone.
  assert (Hcheck : forall t, now st <= t ->
            _check_files_ready (env t) D = ([IterDir D], Ok false)).
  { intros t Ht. destruct (Hgone t Ht) as [msg Hmsg]. by eapply unlistable_not_ready. }
  split; [exact Hcheck|]. intros m.
  apply polling_never_ends; [done..|].
  intros t Ht. unfold files_ready. by rewrite Hcheck.
Qed.

Lemma unlistable_directory_is_polled_for_ever_witness :
  let st' := ticks config (fun _ => deleted_world) 7
               (commit init_state ∅
                  (handle_media_directory config deleted_world heat_dir)) in
  scrapes_of heat_dir (trace st') = 0 /\ retry_dues heat_dir (timers st') = [8].
Proof.
  destruct (unlistable_directory_is_polled_for_ever config (fun _ => deleted_world)
              heat_dir init_state eq_refl eq_refl) as [_ H].
  - intros t _. by eexists.
  - exact (H 7).
Defined.

End LibraryScraperExtras.

(** ** The life cycle of the library scraper *)

Module ScraperLifecycleProofs.

Import Py Eff LibraryScraper ScraperNotions ScraperLifecycle LibraryScraperProofs
  LibraryScraperExtras.

Lemma sw_bind_eq {A B} (m : SW A) (f : A -> SW B) self :
  (m ≫= f) self =
  match m self with
  | (self1, (t1, Ok a)) =>
      let '(self2, (t2, r)) := f a self1 in (self2, (t1 ++ t2, r))
  | (self1, (t1, Raise e)) => (self1, (t1, Raise e))
  end.
Proof. reflexivity. Qed.

Ltac sw :=
  repeat first
    [ progress unfold info, do, update_observer, set_observer, skip, if_observer,
        core, sw_try_except
    | rewrite sw_bind_eq
    | progress cbn [fst snd app _observer scraper_enabled scraper_paths
                    fmap option_fmap option_map mret SW_ret]
    | progress cbv beta iota ].

Lemma stop_service_ok api self :
  stoppable api self ->
  stop_service api self = (without_observer self, (stop_trace self, Ok tt)).
Proof.
  unfold stoppable, stop_service, stop_trace, without_observer, stop_and_join.
  destruct self as [en paths [obs|]]; cbn [_observer].
  - intros [H|[Hs Hj]]; [done|]. sw. rewrite Hs. sw. rewrite Hj. by sw.
  - intros _. by sw.
Qed.

Lemma schedule_paths_ok api paths en cfg obs :
  (forall entry, entry ∈ paths -> observer_schedule api (str entry.1) = Ok tt) ->
  schedule_paths api paths (mkScraper en cfg (Some obs)) =
  (mkScraper en cfg (Some (mkObserver (watches obs ++ (str <$> paths.*1)) (started obs))),
   (schedule_trace paths, Ok tt)).
Proof.
  revert obs. induction paths as [|[path mtype] rest IH]; intros obs Hok.
  - cbn. rewrite app_nil_r. by destruct obs.
  - cbn [schedule_paths].
    pose proof (Hok (path, mtype) (list_elem_of_here _ _)) as Hp. cbn [fst] in Hp.
    sw. rewrite Hp. sw.
    rewrite IH by (intros entry Hin; apply Hok; by apply list_elem_of_further).
    cbn [watches started fmap list_fmap fst]. unfold schedule_trace.
    rewrite bind_cons. cbn [fst app]. by rewrite <- app_assoc.
Qed.

Lemma schedule_paths_shape api paths en cfg obs :
  exists ws t r,
    schedule_paths api paths (mkScraper en cfg (Some obs)) =
      (mkScraper en cfg (Some (mkObserver (watches obs ++ ws) (started obs))), (t, r))
    /\ (ObserverStart ∉ t)
    /\ ((exists entry e, entry ∈ paths /\ observer_schedule api (str entry.1) = Raise e) ->
        exists e, r = Raise e).
Proof.
  revert obs. induction paths as [|[path mtype] rest IH]; intros obs.
  - exists [], [], (Ok tt). cbn. rewrite app_nil_r. split_and!.
    + by destruct obs.
    + intros H. by apply elem_of_nil in H.
    + intros (entry & e & Hin & _). by apply elem_of_nil in Hin.
  - cbn [schedule_paths]. sw.
    destruct (observer_schedule api (str path)) as [[]|e] eqn:Hs.
    + sw. destruct (IH (mkObserver (watches obs ++ [str path]) (started obs)))
        as (ws & t & r & -> & Hns & Hr).
      cbn [watches started]. eexists (str path :: ws), _, r. split_and!.
      * by rewrite <- app_assoc.
      * intros [[=]|[[=]|H]%elem_of_cons]%elem_of_cons. by apply Hns.
      * intros (entry & e & [->|Hin]%elem_of_cons & He).
        -- cbn [fst] in He. congruence.
        -- apply Hr. by exists entry, e.
    + eexists [], _, (Raise e). rewrite app_nil_r. split_and!.
      * by destruct obs.
      * intros [[=]|[[=]|H]%elem_of_cons]%elem_of_cons. by apply elem_of_nil in H.
      * intros _. by exists e.
Qed.

Lemma start_ok api en cfg :
  (forall entry, entry ∈ _monitor_paths cfg -> observer_schedule api (str entry.1) = Ok tt) ->
  observer_start api = Ok tt ->
  start_file_monitor api (mkScraper en cfg None) =
  (mkScraper en cfg (Some (mkObserver (str <$> (_monitor_paths cfg).*1) true)),
   (schedule_trace (_monitor_paths cfg) ++
      [ObserverStart; Core (Log INFO "文件监控服务已启动")], Ok tt)).
Proof.
  intros Hs Hstart. unfold start_file_monitor, sw_try_except. sw.
  rewrite schedule_paths_ok by done. sw. rewrite Hstart. by sw.
Qed.

Lemma start_failed api en cfg :
  (exists entry e, entry ∈ _monitor_paths cfg
     /\ observer_schedule api (str entry.1) = Raise e)
  \/ (exists e, observer_start api = Raise e) ->
  exists obs t e,
    start_file_monitor api (mkScraper en cfg None) =
      (mkScraper en cfg (Some obs),
       (t ++ [Core (Log ERROR ("监控启动失败: " +:+ exn_str e))], Ok tt))
    /\ started obs = false.
Proof.
  intros Hfail. unfold start_file_monitor, sw_try_except. sw.
  destruct (schedule_paths_shape api (_monitor_paths cfg) en cfg (mkObserver [] false))
    as (ws & t & r & -> & _ & Hr).
  cbn [watches started app]. destruct r as [[]|e].
  - destruct Hfail as [Hs|[e He]]; [by destruct (Hr Hs)|].
    sw. rewrite He. exists (mkObserver ws false), (t ++ [ObserverStart]), e.
    split; [|reflexivity]. by rewrite <- app_assoc.
  - exists (mkObserver ws false), t, e. split; reflexivity.
Qed.

Lemma init_enabled api w self c tp paths :
  stoppable api self ->
  has_keys c = true ->
  get_enabled c = Some true ->
  _parse_path_config w (default "" (get_monitor_paths c)) = (tp, Ok paths) ->
  init_plugin api w (Some c) self =
  (let '(self', (t, r)) :=
     start_file_monitor api
       (mkScraper true
          (mkConfig paths (_parse_exclude_paths (default "" (get_exclude_paths c)))) None) in
   (self', (stop_trace self ++ (Core <$> tp) ++ t, r))).
Proof.
  intros Hstop Hkeys Hen Hparse. unfold init_plugin.
  rewrite sw_bind_eq, stop_service_ok, Hkeys, Hen by done. cbn [default from_option id].
  sw. rewrite Hparse. cbn [fst snd]. sw.
  unfold without_observer. cbn [_observer].
  by destruct (start_file_monitor api _) as [self' [t r]].
Qed.

(** X12. With the flag "enabled" set and an observer that takes every
    path, [init_plugin] stops the old observer, parses the two settings and
    starts a new observer that watches, recursively and in the order of the
    setting, exactly the monitored paths that passed the check: a line that
    was refused with a warning is not watched. *)
Theorem enabled_plugin_watches_the_parsed_paths api w self c tp paths :
  stoppable api self ->
  has_keys c = true ->
  get_enabled c = Some true ->
  _parse_path_config w (default "" (get_monitor_paths c)) = (tp, Ok paths) ->
  (forall entry, entry ∈ paths -> observer_schedule api (str entry.1) = Ok tt) ->
  observer_start api = Ok tt ->
  init_plugin api w (Some c) self =
  (mkScraper true
     (mkConfig paths (_parse_exclude_paths (default "" (get_exclude_paths c))))
     (Some (mkObserver (str <$> paths.*1) true)),
   (stop_trace self ++ (Core <$> tp) ++ schedule_trace paths ++
      [ObserverStart; Core (Log INFO "文件监控服务已启动")], Ok tt)).
Proof.
  intros Hstop Hkeys Hen Hparse Hs Hstart.
  rewrite (init_enabled api w self c tp paths) by done.
  by rewrite start_ok.
Qed.

(** X13. When the observer refuses one of the paths, or refuses to start,
    [init_plugin] does not raise: the error is logged as the last action, the
    plugin is left enabled, and its observer stays assigned but is not
    running, so no event will arrive. *)
Theorem failed_start_is_logged_and_leaves_no_monitor api w self c tp paths :
  stoppable api self ->
  has_keys c = true ->
  get_enabled c = Some true ->
  _parse_path_config w (default "" (get_monitor_paths c)) = (tp, Ok paths) ->
  (exists entry e, entry ∈ paths /\ observer_schedule api (str entry.1) = Raise e)
  \/ (exists e, observer_start api = Raise e) ->
  exists obs t e,
    init_plugin api w (Some c) self =
      (mkScraper true
         (mkConfig paths (_parse_exclude_paths (default "" (get_exclude_paths c))))
         (Some obs),
       (t ++ [Core (Log ERROR ("监控启动失败: " +:+ exn_str e))], Ok tt))
    /\ started obs = false.
Proof.
  intros Hstop Hkeys Hen Hparse Hfail.
  rewrite (init_enabled api w self c tp paths) by done.
  destruct (start_failed api true
              (mkConfig paths (_parse_exclude_paths (default "" (get_exclude_paths c))))
              Hfail) as (obs & t & e & -> & Hst).
  exists obs, (stop_trace self ++ (Core <$> tp) ++ t), e. split; [|done].
  by rewrite <- !app_assoc.
Qed.

(** X14. [stop_service] has no handler of its own: when the old observer
    cannot be stopped or joined, the exception leaves [init_plugin] before
    the configuration is read; the plugin keeps its old settings and its old
    observer. *)
Theorem stop_failure_aborts_init api w config self obs e :
  _observer self = Some obs ->
  (observer_stop api = Raise e ->
   init_plugin api w config self = (self, ([ObserverStop], Raise e)))
  /\ (observer_stop api = Ok tt -> observer_join api = Raise e ->
      init_plugin api w config self = (self, ([ObserverStop; ObserverJoin], Raise e))).
Proof.
  intros Hobs. destruct self as [en paths o]. cbn [_observer] in Hobs. subst o.
  split.
  - intros Hs. unfold init_plugin, stop_service, stop_and_join. sw. rewrite Hs. by sw.
  - intros Hs Hj. unfold init_plugin, stop_service, stop_and_join. sw.
    rewrite Hs. sw. rewrite Hj. by sw.
Qed.

(** X15. Without a usable configuration or without the flag "enabled",
    [init_plugin] leaves no observer behind.  With no configuration, or an
    empty one, it only stops the running monitor and keeps the old path
    lists; with a configuration that does not enable the plugin, the two path
    settings are parsed and stored all the same. *)
Theorem no_monitor_without_enabled_flag api w self :
  stoppable api self ->
  (forall config,
     config = None \/ (exists c, config = Some c /\ has_keys c = false) ->
     init_plugin api w config self = (without_observer self, (stop_trace self, Ok tt)))
  /\ (forall c tp paths,
        has_keys c = true ->
        default false (get_enabled c) = false ->
        _parse_path_config w (default "" (get_monitor_paths c)) = (tp, Ok paths) ->
        init_plugin api w (Some c) self =
        (mkScraper false
           (mkConfig paths (_parse_exclude_paths (default "" (get_exclude_paths c))))
           None,
         (stop_trace self ++ (Core <$> tp), Ok tt))).
Proof.
  intros Hstop. split.
  - intros config [->|(c & -> & Hkeys)]; unfold init_plugin;
      rewrite sw_bind_eq, stop_service_ok, ?Hkeys by done; sw; by rewrite app_nil_r.
  - intros c tp paths Hkeys Hen Hparse. unfold init_plugin.
    rewrite sw_bind_eq, stop_service_ok, Hkeys, Hen by done.
    sw. rewrite Hparse. cbn [fst snd]. sw. unfold without_observer. cbn [_observer].
    by rewrite !app_nil_r.
Qed.

Import LibraryScraperExamples ScraperLifecycleExamples.

Lemma enabled_plugin_watches_the_parsed_paths_witness :
  (init_plugin obliging (world_at 0) (Some both_paths) fresh_scraper).1 =
  mkScraper true
    (mkConfig [(of_str "/media/movies", Some MOVIE); (of_str "/media/tv", Some TV)]
              [of_str "/media/temp"])
    (Some (mkObserver ["/media/movies"; "/media/tv"] true)).
Proof.
  rewrite (enabled_plugin_watches_the_parsed_paths obliging (world_at 0) fresh_scraper
             both_paths [Log WARN "无效监控路径: /media/gone"]
             [(of_str "/media/movies", Some MOVIE); (of_str "/media/tv", Some TV)]);
    [reflexivity|by left|reflexivity..].
Defined.

Lemma failed_start_is_logged_and_leaves_no_monitor_witness :
  exists obs t e,
    init_plugin crowded (world_at 0) (Some both_paths) fresh_scraper =
    (mkScraper true
       (mkConfig [(of_str "/media/movies", Some MOVIE); (of_str "/media/tv", Some TV)]
                 [of_str "/media/temp"])
       (Some obs),
     (t ++ [Core (Log ERROR ("监控启动失败: " +:+ exn_str e))], Ok tt))
    /\ started obs = false.
Proof.
  apply (failed_start_is_logged_and_leaves_no_monitor crowded (world_at 0) fresh_scraper
           both_paths [Log WARN "无效监控路径: /media/gone"]);
    [by left|reflexivity..|].
  left. exists (of_str "/media/tv", Some TV), (OSError "inotify watch limit reached").
  split; [|reflexivity]. apply list_elem_of_further, list_elem_of_here.
Defined.

Lemma stop_failure_aborts_init_witness :
  let self := mkScraper true (mkConfig [] []) (Some (mkObserver ["/media/tv"] true)) in
  init_plugin stuck (world_at 0) (Some both_paths) self =
  (self, ([ObserverStop; ObserverJoin], Raise (RuntimeError "cannot join thread"))).
Proof.
  exact (proj2 (stop_failure_aborts_init stuck (world_at 0) (Some both_paths)
                  (mkScraper true (mkConfig [] []) (Some (mkObserver ["/media/tv"] true)))
                  (mkObserver ["/media/tv"] true) (RuntimeError "cannot join thread")
                  eq_refl) eq_refl eq_refl).
Defined.

Lemma no_monitor_without_enabled_flag_witness :
  let self := mkScraper true (mkConfig [] []) (Some (mkObserver ["/media/tv"] true)) in
  init_plugin obliging (world_at 0) None self =
  (mkScraper true (mkConfig [] []) None,
   ([ObserverStop; ObserverJoin; Core (Log INFO "监控服务已停止")], Ok tt)).
Proof.
  apply (proj1 (no_monitor_without_enabled_flag obliging (world_at 0)
                  (mkScraper true (mkConfig [] []) (Some (mkObserver ["/media/tv"] true)))
                  (or_intror (conj eq_refl eq_refl)))).
  by left.
Defined.

End ScraperLifecycleProofs.

(** ** More on the subscription reminder *)

Module SubscribeReminderExtras.

Import Py Eff SubscribeReminder ReminderNotions SubscribeReminderProofs
  SubscribeReminderExamples.

(** *** What [init_plugin] schedules *)








Lemma visit_eq h date acc subscribe :
  visit h date acc subscribe =
  ((if lacks_key subscribe then [] else [lookup_of subscribe]),
   Ok (acc.1 ++ (if airs_on h date subscribe then [tv_entry_of h date subscribe] else []),
       acc.2 ++ (if released_on h date subscribe then [movie_entry_of subscribe] else []))).
Proof.
  destruct acc as [tv mv].
  unfold visit, lacks_key, lookup_of, airs_on, released_on, tv_entry_of,
    movie_entry_of, episodes_on, lacks_key.
  destruct (String.eqb (sub_type subscribe) "电视剧"); cbn [negb andb fst snd].
  - destruct (negb (nonzero (sub_tmdbid subscribe)) || negb (nonzero (sub_season subscribe)));
      cbn [negb andb]; [by rewrite !app_nil_r|].
    rewrite bind_emit.
    destruct (tmdb_episodes h _ _) as [|e0 es] eqn:He; [by rewrite !app_nil_r|].
    destruct (aired_on date (e0 :: es)) as [|n ns] eqn:Ha.
    + rewrite bool_decide_eq_false_2 by (by intros []). by rewrite !app_nil_r.
    + rewrite bool_decide_eq_true_2 by done. by rewrite !app_nil_r.
  - destruct (negb (nonzero (sub_tmdbid subscribe))); cbn [negb andb];
      [by rewrite !app_nil_r|].
    rewrite bind_emit.
    destruct (recognize_movie h _) as [mi|]; [destruct (String.eqb _ date)|];
      by rewrite ?app_nil_r.
Qed.

Lemma collect_eq h date acc subscribes :
  collect h date acc subscribes =
    (lookup_of <$> List.filter (fun s => negb (lacks_key s)) subscribes,
     Ok (acc.1 ++ (tv_entry_of h date <$> List.filter (airs_on h date) subscribes),
         acc.2 ++ (movie_entry_of <$> List.filter (released_on h date) subscribes))).
Proof.
  revert acc. induction subscribes as [|subscribe rest IH]; intros acc.
  - destruct acc. cbn. by rewrite !app_nil_r.
  - cbn [collect List.filter]. rewrite visit_eq, bind_ok, IH. cbn [fst snd].
    destruct (lacks_key subscribe), (airs_on h date subscribe),
      (released_on h date subscribe);
      cbn [negb fmap list_fmap app]; by rewrite <- ?app_assoc.
Qed.


(** X20. The two lists the loop builds are two independent selections from
    the store, in its order, appended to what was there: the TV list gets
    one entry for each keyed TV subscription with an episode dated today,
    the movie list one entry for each other keyed subscription whose film
    is dated today. *)
Theorem collect_selects_in_store_order h date acc subscribes :
  (collect h date acc subscribes).2 =
    Ok (acc.1 ++ (tv_entry_of h date <$> List.filter (airs_on h date) subscribes),
        acc.2 ++ (movie_entry_of <$> List.filter (released_on h date) subscribes)).
Proof. by rewrite collect_eq. Qed.

(** X21. An episode number is kept for the digest exactly when the date of
    the run is a non-empty text and some entry of the season's list is an
    episode with that number whose air date is that text; absent entries
    and absent or empty air dates are passed over. *)
Theorem aired_on_iff (date : string) (episodes_info : list (option TmdbEpisode)) (n : nat) :
  n ∈ aired_on date episodes_info <->
  date <> "" /\
  exists episode, Some episode ∈ episodes_info
                  /\ air_date episode = Some date /\ episode_number episode = n.
Proof.
  induction episodes_info as [|[ep|] rest IH]; cbn [aired_on].
  - split; [by intros ?%elem_of_nil|]. by intros (_ & ? & ?%elem_of_nil & _).
  - destruct (air_date ep) as [d|] eqn:Hd; cbn [nonempty default from_option id andb].
    + destruct (String.eqb_spec d "") as [->|Hne]; cbn [negb andb].
      * rewrite IH. split.
        -- intros (? & e & ? & ? & ?). split; [done|]. exists e. by rewrite elem_of_cons; auto.
        -- intros (Hdate & e & [He|?]%elem_of_cons & Ha & Hn); [|by split; eauto].
           injection He as ->. congruence.
      * destruct (String.eqb_spec d date) as [->|Hneq].
        -- rewrite elem_of_cons, IH. split.
           ++ intros [->|(? & e & ? & ? & ?)].
              ** split; [done|]. exists ep. by rewrite elem_of_cons; auto.
              ** split; [done|]. exists e. by rewrite elem_of_cons; auto.
           ++ intros (Hdate & e & [He|?]%elem_of_cons & Ha & Hn).
              ** injection He as ->. by left.
              ** right. split; eauto.
        -- rewrite IH. split.
           ++ intros (? & e & ? & ? & ?). split; [done|]. exists e. by rewrite elem_of_cons; auto.
           ++ intros (Hdate & e & [He|?]%elem_of_cons & Ha & Hn); [|by split; eauto].
              injection He as ->. congruence.
    + rewrite IH. split.
      * intros (? & e & ? & ? & ?). split; [done|]. exists e. by rewrite elem_of_cons; auto.
      * intros (Hdate & e & [He|?]%elem_of_cons & Ha & Hn); [|by split; eauto].
        injection He as ->. congruence.
  - rewrite IH. split.
    + intros (? & e & ? & ? & ?). split; [done|]. exists e. by rewrite elem_of_cons; auto.
    + intros (Hdate & e & [He|?]%elem_of_cons & Ha & Hn); [discriminate He|by split; eauto].
Qed.

Lemma append_assoc (a b c : string) : (a +:+ b) +:+ c = a +:+ (b +:+ c).
Proof.
  induction a as [|x a IH]; [reflexivity|].
  change (String x ((a +:+ b) +:+ c) = String x (a +:+ (b +:+ c))). by rewrite IH.
Qed.

Lemma append_empty_r (a : string) : a +:+ "" = a.
Proof.
  induction a as [|x a IH]; [reflexivity|].
  change (String x (a +:+ "") = String x a). by rewrite IH.
Qed.

Lemma foldl_append {A} (block : A -> string) (l : list A) (text : string) :
  foldl (fun text sub => text +:+ block sub) text l = text +:+ concat_text (block <$> l).
Proof.
  revert text. induction l as [|x l IH]; intros text; cbn [foldl fmap list_fmap concat_text].
  - by rewrite append_empty_r.
  - by rewrite IH, append_assoc.
Qed.

Lemma concat_text_app (l1 l2 : list string) :
  concat_text (l1 ++ l2) = concat_text l1 +:+ concat_text l2.
Proof.
  induction l1 as [|x l1 IH]; [reflexivity|].
  cbn [app concat_text]. by rewrite IH, append_assoc.
Qed.

(** X22. The text built by lines 153-164 is the blocks of the TV entries, in
    their order, followed by the blocks of the movie entries, in theirs,
    with nothing between them. *)
Theorem digest_text_is_tv_blocks_then_movie_blocks tv mv :
  digest_text tv mv = concat_text ((tv_block <$> tv) ++ (movie_block <$> mv)).
Proof.
  unfold digest_text. by rewrite !foldl_append, concat_text_app.
Qed.

End SubscribeReminderExtras.
